(** * useSubscription: the subscription-lifecycle bridge

    A shallow embedding of [packages/utils/src/useSubscription.ts].

    The module keeps three process-wide tables keyed by the subscription
    hash ([firestoreUnsubscribes], [queryCacheUnsubscribes], [eventCount]).
    The hook installs one query-cache listener per subscription hash; the
    listener opens and closes the external subscription in reaction to the
    cache's lifecycle events, and the callback handed to the external source
    turns the first pushed value into the resolution of a promise and every
    later one into a cache write.

    The collaborators (the query cache, the external push source, the
    promise) are not part of the file; what the code does to them is
    recorded in a chronological [trace] of calls. *)

From Stdlib Require Import ZArith Lia.
From stdpp Require Import base option list strings gmap fin_maps.

(** ** JavaScript values and the two defaulting operators the code uses *)

Inductive JsValue : Type :=
| JsUndefined
| JsNull
| JsBool (b : bool)
| JsNumber (n : Z)
| JsString (str : string)
| JsObject (ref : nat).

(** [!!v]: undefined, null, false, 0 and the empty string are falsy. *)
Definition truthy (v : JsValue) : bool :=
  match v with
  | JsUndefined | JsNull => false
  | JsBool b => b
  | JsNumber n => negb (n =? 0)%Z
  | JsString str => negb (String.eqb str "")
  | JsObject _ => true
  end.

(** [a || b] *)
Definition js_or (a b : JsValue) : JsValue := if truthy a then a else b.

(** [a ?? b] *)
Definition js_nullish (a b : JsValue) : JsValue :=
  match a with
  | JsUndefined | JsNull => b
  | _ => a
  end.

(** [n++] on a JavaScript number holding a counter.  A counter that starts
    at 0 and only grows by [++] stays an exact integer up to 2^53; there the
    sum 2^53 + 1 is not representable and rounds back to 2^53. *)
Definition MAX_EXACT : Z := 2 ^ 53.

Definition js_incr (n : Z) : Z := if (n <? MAX_EXACT)%Z then (n + 1)%Z else n.

(** ** Keys, handles, closures *)

(** A react-query [QueryKey]. *)
Abbreviation QueryKey := (list string).

(** The function an external source returns from [subscribeFn]
    ([type Unsubscribe]): identified by the order of creation. *)
Abbreviation Unsubscribe := nat.

(** [subscribeFn]: the external source may push values through the callback
    synchronously, before it returns the unsubscribe function; these are the
    payloads it pushes then.  Later pushes are separate signals. *)
Record SubscribeFn : Type := {
  pushedOnSubscribe : list JsValue
}.

(** [UseSubscriptionOptions], the fields the hook reads. *)
Record UseSubscriptionOptions : Type := {
  onlyOnce : option bool;
  enabled : option bool;
  fetchFn : option nat;
  queryKeyHashFn : option (QueryKey → string)
}.

(** What the listener installed by the second effect closes over: the
    render's [queryKey], [hashFn], [resolvePromise] (the pending-result slot
    it resolves) and [subscribeFn], and the [queryClient].  Of the client the
    closure uses [getQueryData] and [setQueryData]; [l_clientHashFn] is the
    hash function of the client's default options, by which
    [setQueryData(queryKey, data)] hashes the key. *)
Record Listener : Type := {
  l_queryKey : QueryKey;
  l_hashFn : QueryKey → string;
  l_clientHashFn : QueryKey → string;
  l_resolvePromise : nat;
  l_subscribeFn : SubscribeFn
}.

(** Query-cache events. *)
Inductive EventType : Type :=
| queryAdded
| queryRemoved
| queryUpdated
| observerAdded
| observerRemoved
| observerResultsUpdated.

Record Query : Type := {
  queryHash : string;
  getObserversCount : Z
}.

Record QueryCacheNotifyEvent : Type := {
  query : Query;
  type : EventType
}.

(** A query held by the query cache: the hash it is filed under, the hash
    function of its options ([options.queryKeyHashFn], or the default one)
    and its data ([undefined] while it has none). *)
Record CachedQuery : Type := {
  cq_queryHash : string;
  cq_queryKeyHashFn : QueryKey → string;
  cq_data : JsValue
}.

(** ** Calls made to the collaborators *)

Inductive Action : Type :=
| CallSubscribeFn (subscriptionHash : string) (u : Unsubscribe)
| CallUnsubscribe (subscriptionHash : string) (u : Unsubscribe)
| CallCacheSubscribe (subscriptionHash : string)
| CallCacheUnsubscribe (subscriptionHash : string)
| CallFetchFn (f : nat)
| ResolvePromise (slot : nat) (v : JsValue)
| RejectPromise (slot : nat) (err : JsValue)
| SetQueryData (key : QueryKey) (v : JsValue).

(** ** Shared state *)

(** The three module-level tables, the queries of the query cache in the
    order they were added, the supply of handle identities and the calls
    made so far.  The tables are plain objects indexed by hashes; a hash is
    the text [hashQueryKey] produces for a key, which never names an
    inherited property, so the tables are read as finite maps. *)
Record State : Type := {
  firestoreUnsubscribes : gmap string Unsubscribe;
  queryCacheUnsubscribes : gmap string Listener;
  eventCount : gmap string Z;
  queryData : list CachedQuery;
  nextUnsubscribe : nat;
  trace : list Action
}.

Definition init : State :=
  {| firestoreUnsubscribes := ∅;
     queryCacheUnsubscribes := ∅;
     eventCount := ∅;
     queryData := [];
     nextUnsubscribe := 0;
     trace := [] |}.

Definition set_firestoreUnsubscribes
    (f : gmap string Unsubscribe → gmap string Unsubscribe) (s : State) : State :=
  {| firestoreUnsubscribes := f (firestoreUnsubscribes s);
     queryCacheUnsubscribes := queryCacheUnsubscribes s;
     eventCount := eventCount s;
     queryData := queryData s;
     nextUnsubscribe := nextUnsubscribe s;
     trace := trace s |}.

Definition set_queryCacheUnsubscribes
    (f : gmap string Listener → gmap string Listener) (s : State) : State :=
  {| firestoreUnsubscribes := firestoreUnsubscribes s;
     queryCacheUnsubscribes := f (queryCacheUnsubscribes s);
     eventCount := eventCount s;
     queryData := queryData s;
     nextUnsubscribe := nextUnsubscribe s;
     trace := trace s |}.

Definition set_eventCount (f : gmap string Z → gmap string Z) (s : State) : State :=
  {| firestoreUnsubscribes := firestoreUnsubscribes s;
     queryCacheUnsubscribes := queryCacheUnsubscribes s;
     eventCount := f (eventCount s);
     queryData := queryData s;
     nextUnsubscribe := nextUnsubscribe s;
     trace := trace s |}.

Definition set_queryData
    (f : list CachedQuery → list CachedQuery) (s : State) : State :=
  {| firestoreUnsubscribes := firestoreUnsubscribes s;
     queryCacheUnsubscribes := queryCacheUnsubscribes s;
     eventCount := eventCount s;
     queryData := f (queryData s);
     nextUnsubscribe := nextUnsubscribe s;
     trace := trace s |}.

Definition set_nextUnsubscribe (f : nat → nat) (s : State) : State :=
  {| firestoreUnsubscribes := firestoreUnsubscribes s;
     queryCacheUnsubscribes := queryCacheUnsubscribes s;
     eventCount := eventCount s;
     queryData := queryData s;
     nextUnsubscribe := f (nextUnsubscribe s);
     trace := trace s |}.

(** Record a call to a collaborator. *)
Definition emit (a : Action) (s : State) : State :=
  {| firestoreUnsubscribes := firestoreUnsubscribes s;
     queryCacheUnsubscribes := queryCacheUnsubscribes s;
     eventCount := eventCount s;
     queryData := queryData s;
     nextUnsubscribe := nextUnsubscribe s;
     trace := trace s ++ [a] |}.

(** ** The query client's store *)

(** The query layer writes the cache too (it builds the consumer's query
    and fills it when a fetch resolves).  That code is not in the file: the
    statements about one call hold for every content of the cache, and the
    runs from [init] show the writes of the bridge alone. *)

(** The cache finds a query for a key by exact match: the query's hash is
    the hash of the key under the query's own options. *)
Definition matchQuery (key : QueryKey) (q : CachedQuery) : bool :=
  bool_decide (cq_queryHash q = cq_queryKeyHashFn q key).

(** [queryClient.getQueryData(queryKey)]: the data of the first query of the
    cache that matches the key; undefined when none does. *)
Definition getQueryData (key : QueryKey) (s : State) : JsValue :=
  match List.find (matchQuery key) (queryData s) with
  | Some q => cq_data q
  | None => JsUndefined
  end.

(** Setting the data of the query filed under [queryHash]: when the cache
    has none, one is built under the client's default options and added
    last. *)
Fixpoint fileData
    (queryHash : string) (clientHashFn : QueryKey → string) (data : JsValue)
    (queries : list CachedQuery) : list CachedQuery :=
  match queries with
  | [] =>
      [{| cq_queryHash := queryHash;
          cq_queryKeyHashFn := clientHashFn;
          cq_data := data |}]
  | q :: rest =>
      if bool_decide (cq_queryHash q = queryHash)
      then {| cq_queryHash := cq_queryHash q;
              cq_queryKeyHashFn := cq_queryKeyHashFn q;
              cq_data := data |} :: rest
      else q :: fileData queryHash clientHashFn data rest
  end.

(** [queryClient.setQueryData(queryKey, data)]: the call passes no options,
    so the key is hashed by the hash function of the client's default
    options, whatever [queryKeyHashFn] the hook was given. *)
Definition setQueryData
    (clientHashFn : QueryKey → string) (key : QueryKey) (data : JsValue)
    (s : State) : State :=
  emit (SetQueryData key data)
    (set_queryData (fileData (clientHashFn key) clientHashFn data) s).

(** ** Teardown helpers (lines 48-63) *)

Definition firestoreUnsubscribe (subscriptionHash : string) (s : State) : State :=
  let s1 :=
    match firestoreUnsubscribes s !! subscriptionHash with
    | Some u => emit (CallUnsubscribe subscriptionHash u) s
    | None => s
    end in
  set_eventCount (delete subscriptionHash)
    (set_firestoreUnsubscribes (delete subscriptionHash) s1).

Definition queryCacheUnsubscribe (subscriptionHash : string) (s : State) : State :=
  match queryCacheUnsubscribes s !! subscriptionHash with
  | Some _ =>
      set_queryCacheUnsubscribes (delete subscriptionHash)
        (emit (CallCacheUnsubscribe subscriptionHash) s)
  | None => s
  end.

(** ** The callback handed to [subscribeFn] (lines 166-174) *)

(** The counter of an identity as the callback reads it after
    [eventCount[subscriptionHash] ??= 0]: an absent counter counts as zero.
    This is the spec's [eventCountOf(identity)]. *)
Definition eventCountOf (subscriptionHash : string) (s : State) : Z :=
  default 0%Z (eventCount s !! subscriptionHash).

Definition subscriptionCallback
    (subscriptionHash : string) (l : Listener) (data : JsValue) (s : State) : State :=
  let n := js_incr (eventCountOf subscriptionHash s) in
  let s1 := set_eventCount <[subscriptionHash := n]> s in
  if (n =? 1)%Z
  then emit (ResolvePromise (l_resolvePromise l) (js_or data JsNull)) s1
  else setQueryData (l_clientHashFn l) (l_queryKey l) data s1.

(** The pushes the source makes while [subscribeFn] runs: the callback is
    invoked once per payload, in order. *)
Definition pushAll (h : string) (l : Listener) (pushes : list JsValue) (s : State) : State :=
  foldl (λ st data, subscriptionCallback h l data st) s pushes.

(** [!!eventCount[subscriptionHash]] *)
Definition hasData (subscriptionHash : string) (s : State) : bool :=
  match eventCount s !! subscriptionHash with
  | Some n => negb (n =? 0)%Z
  | None => false
  end.

(** [!!firestoreUnsubscribes[subscriptionHash]]: the stored values are the
    functions returned by [subscribeFn], so presence is truthiness. *)
Definition isSubscribedToFirestore (subscriptionHash : string) (s : State) : bool :=
  bool_decide (is_Some (firestoreUnsubscribes s !! subscriptionHash)).

(** ** The query-cache listener (lines 138-177) *)

(** [event.query.queryHash === hashFn(queryKey)]: the event is about the
    listener's logical request. *)
Definition concerns (l : Listener) (ev : QueryCacheNotifyEvent) : bool :=
  bool_decide (queryHash (query ev) = l_hashFn l (l_queryKey l)).

Definition cacheListener
    (subscriptionHash : string) (l : Listener)
    (event : option QueryCacheNotifyEvent) (s : State) : State :=
  match event with
  | None => s
  | Some ev =>
      if negb (concerns l ev)
      then s
      else
        let observersCount := getObserversCount (query ev) in
        match type ev with
        | queryRemoved =>
            firestoreUnsubscribe subscriptionHash
              (queryCacheUnsubscribe subscriptionHash s)
        | observerRemoved =>
            if negb (observersCount =? 0)%Z
            then s
            else firestoreUnsubscribe subscriptionHash s
        | observerAdded =>
            if isSubscribedToFirestore subscriptionHash s
            then
              let cachedData := getQueryData (l_queryKey l) s in
              if hasData subscriptionHash s
              then emit (ResolvePromise (l_resolvePromise l)
                           (js_nullish cachedData JsNull)) s
              else s
            else
              let u := nextUnsubscribe s in
              let s1 :=
                emit (CallSubscribeFn subscriptionHash u)
                  (set_nextUnsubscribe S s) in
              let s2 :=
                pushAll subscriptionHash l (pushedOnSubscribe (l_subscribeFn l)) s1 in
              set_firestoreUnsubscribes <[subscriptionHash := u]> s2
        | _ => s
        end
  end.

(** ** The two effects of the hook *)

(** [options?.onlyOnce] as a condition. *)
Definition opt_onlyOnce (options : option UseSubscriptionOptions) : bool :=
  default false (options ≫= onlyOnce).

(** [options?.enabled ?? true] *)
Definition opt_enabled (options : option UseSubscriptionOptions) : bool :=
  default true (options ≫= enabled).

(** One run of the one-shot effect (lines 102-127): the local [cancelled]
    flag and the promise callbacks the fetch handlers close over. *)
Record OneShot : Type := {
  cancelled : bool;
  os_resolvePromise : nat;
  os_rejectPromise : nat
}.

Inductive EffectResult : Type :=
| Returned
| Threw (message : string)
| ReturnedCleanup (run : OneShot).

Definition onlyOnceEffect
    (options : option UseSubscriptionOptions) (slot : nat) (s : State)
    : EffectResult * State :=
  if negb (opt_onlyOnce options) || negb (opt_enabled options)
  then (Returned, s)
  else
    match options ≫= fetchFn with
    | None => (Threw "You must specify fetchFn if using onlyOnce mode.", s)
    | Some f =>
        (ReturnedCleanup
           {| cancelled := false;
              os_resolvePromise := slot;
              os_rejectPromise := slot |},
         emit (CallFetchFn f) s)
    end.

(** The cleanup returned by the effect: [cancelled = true]. *)
Definition cleanup (r : OneShot) : OneShot :=
  {| cancelled := true;
     os_resolvePromise := os_resolvePromise r;
     os_rejectPromise := os_rejectPromise r |}.

(** How the promise returned by [fetchFn()] settles. *)
Inductive Settlement : Type :=
| Fulfilled (data : JsValue)
| Rejected (err : JsValue).

(** The [.then] handler runs on fulfilment, the [.catch] handler on
    rejection; each checks the flag first. *)
Definition settle (r : OneShot) (o : Settlement) (s : State) : State :=
  match o with
  | Fulfilled data =>
      if cancelled r then s
      else emit (ResolvePromise (os_resolvePromise r) data) s
  | Rejected err =>
      if cancelled r then s
      else emit (RejectPromise (os_rejectPromise r) err) s
  end.

Section WithHash.

(** react-query's [hashQueryKey]. *)
Variable hashQueryKey : QueryKey → string.

(** [options?.queryKeyHashFn || hashQueryKey] *)
Definition hashFn (options : option UseSubscriptionOptions) : QueryKey → string :=
  default hashQueryKey (options ≫= queryKeyHashFn).

(** The subscription effect (lines 129-178).  The client is the one
    [useQueryClient] returns; its default options hash keys with
    [hashQueryKey]. *)
Definition subscriptionEffect
    (options : option UseSubscriptionOptions)
    (queryKey subscriptionKey : QueryKey)
    (resolvePromise : nat) (subscribeFn : SubscribeFn) (s : State) : State :=
  if opt_onlyOnce options || negb (opt_enabled options)
  then s
  else
    let subscriptionHash := hashFn options subscriptionKey in
    match queryCacheUnsubscribes s !! subscriptionHash with
    | Some _ => s
    | None =>
        set_queryCacheUnsubscribes
          <[subscriptionHash :=
              {| l_queryKey := queryKey;
                 l_hashFn := hashFn options;
                 l_clientHashFn := hashQueryKey;
                 l_resolvePromise := resolvePromise;
                 l_subscribeFn := subscribeFn |}]>
          (emit (CallCacheSubscribe subscriptionHash) s)
    end.

(** ** Signals reaching the subscription path *)

Inductive Signal : Type :=
| RunEffect (options : option UseSubscriptionOptions)
    (queryKey subscriptionKey : QueryKey)
    (resolvePromise : nat) (subscribeFn : SubscribeFn)
| Notify (subscriptionHash : string) (event : option QueryCacheNotifyEvent)
| Deliver (subscriptionHash : string) (data : JsValue)
| SourceError (subscriptionHash : string) (err : JsValue).

(** - [RunEffect]: React runs the subscription effect of a render.
    - [Notify h ev]: the query cache calls the listener installed under [h];
      a cache event is broadcast as one [Notify] per installed listener.
    - [Deliver h data]: the external source pushes [data] through the
      callback of the subscription that is open for [h] (a source pushes
      only between subscribe and unsubscribe).
    - [SourceError h err]: the external source fails.  [subscribeFn] is
      given a data callback and nothing else (line 76), so no code of the
      bridge runs. *)
Definition step (sg : Signal) (s : State) : State :=
  match sg with
  | RunEffect options queryKey subscriptionKey resolvePromise subscribeFn =>
      subscriptionEffect options queryKey subscriptionKey resolvePromise subscribeFn s
  | Notify h event =>
      match queryCacheUnsubscribes s !! h with
      | Some l => cacheListener h l event s
      | None => s
      end
  | Deliver h data =>
      match firestoreUnsubscribes s !! h, queryCacheUnsubscribes s !! h with
      | Some _, Some l => subscriptionCallback h l data s
      | _, _ => s
      end
  | SourceError _ _ => s
  end.

Definition run (sigs : list Signal) (s : State) : State :=
  foldl (λ st sg, step sg st) s sigs.

End WithHash.

(** ** Observations on the trace *)

Fixpoint count (p : Action → bool) (tr : list Action) : nat :=
  match tr with
  | [] => 0
  | a :: tr' => (if p a then 1 else 0) + count p tr'
  end.

Definition is_open (h : string) (a : Action) : bool :=
  match a with
  | CallSubscribeFn h' _ => bool_decide (h' = h)
  | _ => false
  end.

Definition is_close (h : string) (a : Action) : bool :=
  match a with
  | CallUnsubscribe h' _ => bool_decide (h' = h)
  | _ => false
  end.

Definition is_listen (h : string) (a : Action) : bool :=
  match a with
  | CallCacheSubscribe h' => bool_decide (h' = h)
  | _ => false
  end.

Definition is_reject (a : Action) : bool :=
  match a with
  | RejectPromise _ _ => true
  | _ => false
  end.

(** How often [subscribeFn] was invoked for [h], how often a handle stored
    for [h] was invoked, how often a cache listener was installed for [h]. *)
Definition opens (h : string) (tr : list Action) : nat := count (is_open h) tr.
Definition closes (h : string) (tr : list Action) : nat := count (is_close h) tr.
Definition listens (h : string) (tr : list Action) : nat := count (is_listen h) tr.

(** The promise behind a slot settles on the first call of its [resolve] or
    [reject]; later calls are ignored. *)
Inductive SlotState : Type :=
| Pending
| ResolvedWith (v : JsValue)
| RejectedWith (err : JsValue).

Fixpoint slotState (slot : nat) (tr : list Action) : SlotState :=
  match tr with
  | [] => Pending
  | ResolvePromise k v :: tr' =>
      if bool_decide (k = slot) then ResolvedWith v else slotState slot tr'
  | RejectPromise k err :: tr' =>
      if bool_decide (k = slot) then RejectedWith err else slotState slot tr'
  | _ :: tr' => slotState slot tr'
  end.

(** ** Signals that attach and signals that tear down *)

(** [mkEvent qh t n]: an event of type [t] for the query hashed [qh] that
    has [n] observers. *)
Definition mkEvent (qh : string) (t : EventType) (n : Z) : QueryCacheNotifyEvent :=
  {| query := {| queryHash := qh; getObserversCount := n |}; type := t |}.

(** The event is an [observerAdded] about [l]'s request. *)
Definition attaching (l : Listener) (ev : QueryCacheNotifyEvent) : bool :=
  concerns l ev && match type ev with observerAdded => true | _ => false end.

(** The event is a request removal about [l]'s request. *)
Definition evicting (l : Listener) (ev : QueryCacheNotifyEvent) : bool :=
  concerns l ev && match type ev with queryRemoved => true | _ => false end.

(** The event is a request removal, or an [observerRemoved] that leaves no
    observer, about [l]'s request. *)
Definition tearing (l : Listener) (ev : QueryCacheNotifyEvent) : bool :=
  concerns l ev &&
  match type ev with
  | queryRemoved => true
  | observerRemoved => (getObserversCount (query ev) =? 0)%Z
  | _ => false
  end.

(** The signal hands the listener installed under [h] an event of the
    given kind. *)
Definition on_listener
    (h : string) (kind : QueryCacheNotifyEvent → bool) (sg : Signal) : bool :=
  match sg with
  | Notify h' (Some ev) => bool_decide (h' = h) && kind ev
  | _ => false
  end.

Definition attaches (h : string) (l : Listener) : Signal → bool :=
  on_listener h (attaching l).

Definition tears_down (h : string) (l : Listener) : Signal → bool :=
  on_listener h (tearing l).

Definition evicts (h : string) (l : Listener) : Signal → bool :=
  on_listener h (evicting l).

(** ** A concrete run: one request [Q1] fed by one subscription [S1] *)

Definition joinKey (k : QueryKey) : string := String.concat "," k.

Definition quietSource : SubscribeFn := {| pushedOnSubscribe := [] |}.

Definition q1Listener : Listener :=
  {| l_queryKey := ["Q1"];
     l_hashFn := joinKey;
     l_clientHashFn := joinKey;
     l_resolvePromise := 7;
     l_subscribeFn := quietSource |}.

Definition mounted : State :=
  run joinKey [RunEffect None ["Q1"] ["S1"] 7 quietSource] init.

Definition attached : State :=
  step joinKey (Notify "S1" (Some (mkEvent "Q1" observerAdded 1))) mounted.

Definition streaming : State :=
  run joinKey [Deliver "S1" (JsString "a"); Deliver "S1" (JsString "b")] attached.

(** ** Predicates on actions that ignore the calls of one listener *)

(** [p] holds of none of the calls the listener under [h], or the callback
    it hands out, can make. *)
Definition quiet_for (p : Action → bool) (h : string) : Prop :=
  (∀ u, p (CallSubscribeFn h u) = false) ∧
  (∀ u, p (CallUnsubscribe h u) = false) ∧
  p (CallCacheUnsubscribe h) = false ∧
  (∀ k v, p (ResolvePromise k v) = false) ∧
  (∀ k v, p (SetQueryData k v) = false).

(** ** The registry invariant *)

(** For one subscription hash: a counter is kept only while a handle is
    stored, and the calls of [subscribeFn] not yet answered by a call of the
    returned handle are exactly the stored handle, if any. *)
Definition balanced (h : string) (s : State) : Prop :=
  (firestoreUnsubscribes s !! h = None → eventCount s !! h = None) ∧
  opens h (trace s)
  = closes h (trace s)
    + match firestoreUnsubscribes s !! h with Some _ => 1 | None => 0 end.

(** Consumers come and go on [Q1] while values arrive; the observer count
    never drops to zero. *)
Definition churn : list Signal :=
  [Notify "S1" (Some (mkEvent "Q1" observerAdded 1));
   Deliver "S1" (JsString "a");
   Notify "S1" (Some (mkEvent "Q1" observerAdded 2));
   Notify "S1" (Some (mkEvent "Q1" observerRemoved 1));
   Notify "S1" (Some (mkEvent "Q1" observerAdded 2))].

(** One-shot options without a fetch function, and with one. *)
Definition onceNoFetch : UseSubscriptionOptions :=
  {| onlyOnce := Some true; enabled := None; fetchFn := None; queryKeyHashFn := None |}.

Definition onceWithFetch : UseSubscriptionOptions :=
  {| onlyOnce := Some true; enabled := None; fetchFn := Some 3; queryKeyHashFn := None |}.

(** A source failure reported before any value was pushed. *)
Definition permissionDenied : Signal := SourceError "S1" (JsString "permission-denied").

(** ** The listener and the slot it closed over *)

(** The slot has been resolved or rejected. *)
Definition settled (slot : nat) (s : State) : Prop :=
  slotState slot (trace s) ≠ Pending.

(** For one subscription hash: a stored handle was put there by the
    listener that is installed, and once an event has been counted the slot
    that listener closed over is settled. *)
Definition wired (h : string) (s : State) : Prop :=
  (is_Some (firestoreUnsubscribes s !! h) → is_Some (queryCacheUnsubscribes s !! h)) ∧
  (∀ l, is_Some (eventCount s !! h) →
        queryCacheUnsubscribes s !! h = Some l →
        settled (l_resolvePromise l) s).

(** ** One identity seen from outside *)

(** The subscription hash a signal is addressed to. *)
Definition addressee (hashQueryKey : QueryKey → string) (sg : Signal) : string :=
  match sg with
  | RunEffect options _ subscriptionKey _ _ => hashFn hashQueryKey options subscriptionKey
  | Notify h _ => h
  | Deliver h _ => h
  | SourceError h _ => h
  end.

(** Everything the module keeps, and every call it made, for one hash. *)
Definition view (h : string) (s : State)
    : option Unsubscribe * option Listener * option Z * (nat * nat * nat) :=
  (firestoreUnsubscribes s !! h,
   queryCacheUnsubscribes s !! h,
   eventCount s !! h,
   (opens h (trace s), closes h (trace s), listens h (trace s))).

(** Every stored counter has counted at least one event and is an exact
    integer. *)
Definition counters_in_range (s : State) : Prop :=
  ∀ h n, eventCount s !! h = Some n → (1 ≤ n ≤ MAX_EXACT)%Z.

(** ** More concrete runs *)

(** [S1] after all observers left and one came back. *)
Definition reopened : State :=
  run joinKey
    [Notify "S1" (Some (mkEvent "Q1" observerRemoved 0));
     Notify "S1" (Some (mkEvent "Q1" observerAdded 1))] streaming.

(** A source that pushes two values while [subscribeFn] runs. *)
Definition eagerSource : SubscribeFn :=
  {| pushedOnSubscribe := [JsString "cached"; JsString "fresh"] |}.

Definition q2Listener : Listener :=
  {| l_queryKey := ["Q2"];
     l_hashFn := joinKey;
     l_clientHashFn := joinKey;
     l_resolvePromise := 9;
     l_subscribeFn := eagerSource |}.

Definition twoRequests : list Signal :=
  [RunEffect None ["Q1"] ["S1"] 7 quietSource;
   RunEffect None ["Q2"] ["S2"] 9 eagerSource;
   Notify "S1" (Some (mkEvent "Q1" observerAdded 1));
   Deliver "S1" (JsString "a")].

(** What reaches [S2] while [S1] is streaming. *)
Definition trafficOnS2 : list Signal :=
  [Notify "S2" (Some (mkEvent "Q2" observerAdded 1));
   Deliver "S2" (JsNumber 5);
   SourceError "S2" (JsString "offline");
   Notify "S2" (Some (mkEvent "Q2" queryRemoved 1));
   RunEffect None ["Q3"] ["S2"] 11 quietSource].

(** A second render asks for another key through the same subscription. *)
Definition rerenders : list Signal :=
  [RunEffect None ["Q9"] ["S1"] 8 eagerSource;
   Notify "S1" (Some (mkEvent "Q1" observerAdded 2));
   Notify "S1" (Some (mkEvent "Q1" observerRemoved 0));
   Deliver "S1" (JsString "late");
   Notify "S1" (Some (mkEvent "Q9" queryRemoved 0))].

(** ** A second consumer of [Q1] *)

(** [Q1] has received two values when a second component renders the hook
    with the same keys: its render makes a slot of its own (8), its effect
    finds the listener installed. *)
Definition secondConsumerMounted : State :=
  run joinKey [RunEffect None ["Q1"] ["S1"] 8 quietSource] streaming.

(** The cache reports the second observer. *)
Definition secondConsumerAttaches : Signal :=
  Notify "S1" (Some (mkEvent "Q1" observerAdded 2)).

(** ** A hook that is given a hash function *)

Definition lastSegment (k : QueryKey) : string := default "" (last k).

Definition customHashOptions : UseSubscriptionOptions :=
  {| onlyOnce := None; enabled := Some true; fetchFn := None;
     queryKeyHashFn := Some lastSegment |}.

Definition customListener : Listener :=
  {| l_queryKey := ["users"; "Q1"];
     l_hashFn := lastSegment;
     l_clientHashFn := joinKey;
     l_resolvePromise := 7;
     l_subscribeFn := quietSource |}.

(** The consumer's own query, as [useQuery] builds it under the options of
    the hook (hashed by [lastSegment]) and as the query layer fills it when
    the first value "a" resolved the fetch. *)
Definition consumerQuery : CachedQuery :=
  {| cq_queryHash := "Q1"; cq_queryKeyHashFn := lastSegment; cq_data := JsString "a" |}.

(** The hook has received its first value; the cache holds the consumer's
    query. *)
Definition customHashed : State :=
  set_queryData (λ _, [consumerQuery])
    (run joinKey
       [RunEffect (Some customHashOptions) ["users"; "Q1"] ["users"; "S1"] 7 quietSource;
        Notify "S1" (Some (mkEvent "Q1" observerAdded 1));
        Deliver "S1" (JsString "a")] init).

(** ** Basic facts *)

Lemma count_app p tr1 tr2 : count p (tr1 ++ tr2) = count p tr1 + count p tr2.
Proof.
  induction tr1 as [|a tr1 IH]; simpl; [done|]. rewrite IH. lia.
Qed.

Lemma js_incr_exact n : (n < MAX_EXACT)%Z → js_incr n = (n + 1)%Z.
Proof.
  intros Hn. unfold js_incr. destruct (Z.ltb_spec n MAX_EXACT); [done|lia].
Qed.

Lemma js_incr_saturates : js_incr MAX_EXACT = MAX_EXACT.
Proof. reflexivity. Qed.


Lemma isSubscribed_true h s u :
  firestoreUnsubscribes s !! h = Some u → isSubscribedToFirestore h s = true.
Proof.
  intros Hu. unfold isSubscribedToFirestore. apply bool_decide_eq_true. eauto.
Qed.

Lemma isSubscribed_false h s :
  firestoreUnsubscribes s !! h = None → isSubscribedToFirestore h s = false.
Proof.
  intros Hu. unfold isSubscribedToFirestore. apply bool_decide_eq_false.
  rewrite Hu. intros [? ?]. discriminate.
Qed.

(** The two branches of the callback. *)
Lemma subscriptionCallback_first h l data s :
  eventCountOf h s = 0%Z →
  subscriptionCallback h l data s
  = emit (ResolvePromise (l_resolvePromise l) (js_or data JsNull))
      (set_eventCount <[h := 1%Z]> s).
Proof. intros Hzero. unfold subscriptionCallback. by rewrite Hzero. Qed.

Lemma subscriptionCallback_later h l data s :
  (1 ≤ eventCountOf h s)%Z →
  subscriptionCallback h l data s
  = setQueryData (l_clientHashFn l) (l_queryKey l) data
      (set_eventCount <[h := js_incr (eventCountOf h s)]> s).
Proof.
  intros Hpos. unfold subscriptionCallback.
  assert ((js_incr (eventCountOf h s) =? 1)%Z = false) as ->; [|done].
  apply Z.eqb_neq. unfold js_incr, MAX_EXACT.
  destruct (Z.ltb_spec (eventCountOf h s) (2 ^ 53)); lia.
Qed.

(** The callback touches the counter of its own hash, the store and the
    trace; the two registries are left alone. *)
Lemma subscriptionCallback_firestore h l data s :
  firestoreUnsubscribes (subscriptionCallback h l data s) = firestoreUnsubscribes s.
Proof. unfold subscriptionCallback. by case_match. Qed.

Lemma subscriptionCallback_listeners h l data s :
  queryCacheUnsubscribes (subscriptionCallback h l data s) = queryCacheUnsubscribes s.
Proof. unfold subscriptionCallback. by case_match. Qed.


Lemma subscriptionCallback_eventCount h l data s :
  eventCount (subscriptionCallback h l data s)
  = <[h := js_incr (eventCountOf h s)]> (eventCount s).
Proof. unfold subscriptionCallback, eventCountOf. by case_match. Qed.

Lemma subscriptionCallback_count p h l data s :
  (∀ k v, p (ResolvePromise k v) = false) →
  (∀ k v, p (SetQueryData k v) = false) →
  count p (trace (subscriptionCallback h l data s)) = count p (trace s).
Proof.
  intros Hr Hs. unfold subscriptionCallback.
  case_match; simpl; rewrite count_app; simpl; rewrite ?Hr, ?Hs; lia.
Qed.

Lemma pushAll_firestore h l pushes s :
  firestoreUnsubscribes (pushAll h l pushes s) = firestoreUnsubscribes s.
Proof.
  revert s. induction pushes as [|d ds IH]; intros s; simpl; [done|].
  rewrite IH. apply subscriptionCallback_firestore.
Qed.

Lemma pushAll_listeners h l pushes s :
  queryCacheUnsubscribes (pushAll h l pushes s) = queryCacheUnsubscribes s.
Proof.
  revert s. induction pushes as [|d ds IH]; intros s; simpl; [done|].
  rewrite IH. apply subscriptionCallback_listeners.
Qed.

Lemma pushAll_eventCount_ne h h' l pushes s :
  h ≠ h' → eventCount (pushAll h l pushes s) !! h' = eventCount s !! h'.
Proof.
  intros Hne. revert s. induction pushes as [|d ds IH]; intros s; simpl; [done|].
  rewrite IH, subscriptionCallback_eventCount. by rewrite lookup_insert_ne.
Qed.

Lemma pushAll_eventCount_ext h l pushes s1 s2 :
  eventCount s1 = eventCount s2 →
  eventCount (pushAll h l pushes s1) = eventCount (pushAll h l pushes s2).
Proof.
  revert s1 s2. induction pushes as [|d ds IH]; intros s1 s2 Heq; simpl; [done|].
  apply IH. rewrite !subscriptionCallback_eventCount. unfold eventCountOf.
  by rewrite Heq.
Qed.

Lemma pushAll_count p h l pushes s :
  (∀ k v, p (ResolvePromise k v) = false) →
  (∀ k v, p (SetQueryData k v) = false) →
  count p (trace (pushAll h l pushes s)) = count p (trace s).
Proof.
  intros Hr Hs. revert s. induction pushes as [|d ds IH]; intros s; simpl; [done|].
  rewrite IH. by apply subscriptionCallback_count.
Qed.

(** Teardown of the external subscription, field by field. *)
Lemma firestoreUnsubscribe_firestore h s :
  firestoreUnsubscribes (firestoreUnsubscribe h s) = delete h (firestoreUnsubscribes s).
Proof. unfold firestoreUnsubscribe. by case_match. Qed.

Lemma firestoreUnsubscribe_eventCount h s :
  eventCount (firestoreUnsubscribe h s) = delete h (eventCount s).
Proof. unfold firestoreUnsubscribe. by case_match. Qed.

Lemma firestoreUnsubscribe_listeners h s :
  queryCacheUnsubscribes (firestoreUnsubscribe h s) = queryCacheUnsubscribes s.
Proof. unfold firestoreUnsubscribe. by case_match. Qed.

Lemma firestoreUnsubscribe_trace h s :
  trace (firestoreUnsubscribe h s)
  = trace s ++ match firestoreUnsubscribes s !! h with
               | Some u => [CallUnsubscribe h u]
               | None => []
               end.
Proof. unfold firestoreUnsubscribe. case_match; simpl; by rewrite ?app_nil_r. Qed.

Lemma firestoreUnsubscribe_absent h s :
  firestoreUnsubscribes s !! h = None → eventCount s !! h = None →
  firestoreUnsubscribe h s = s.
Proof.
  intros Hf He. unfold firestoreUnsubscribe. rewrite Hf.
  destruct s as [fu qu ec qd nx tr]; simpl in *.
  unfold set_eventCount, set_firestoreUnsubscribes; simpl.
  by rewrite !delete_id.
Qed.

Lemma queryCacheUnsubscribe_absent h s :
  queryCacheUnsubscribes s !! h = None → queryCacheUnsubscribe h s = s.
Proof. intros Hq. unfold queryCacheUnsubscribe. by rewrite Hq. Qed.

Lemma queryCacheUnsubscribe_listeners h s :
  queryCacheUnsubscribes (queryCacheUnsubscribe h s) = delete h (queryCacheUnsubscribes s).
Proof.
  unfold queryCacheUnsubscribe. case_match eqn:Hq; simpl; [done|].
  by rewrite delete_id.
Qed.

Lemma queryCacheUnsubscribe_firestore h s :
  firestoreUnsubscribes (queryCacheUnsubscribe h s) = firestoreUnsubscribes s.
Proof. unfold queryCacheUnsubscribe. by case_match. Qed.

Lemma queryCacheUnsubscribe_eventCount h s :
  eventCount (queryCacheUnsubscribe h s) = eventCount s.
Proof. unfold queryCacheUnsubscribe. by case_match. Qed.

Lemma queryCacheUnsubscribe_trace h s :
  trace (queryCacheUnsubscribe h s)
  = trace s ++ match queryCacheUnsubscribes s !! h with
               | Some _ => [CallCacheUnsubscribe h]
               | None => []
               end.
Proof. unfold queryCacheUnsubscribe. case_match; simpl; by rewrite ?app_nil_r. Qed.

(** ** What the listener does, case by case *)

Lemma cacheListener_observerRemoved h l q s :
  concerns l {| query := q; type := observerRemoved |} = true →
  cacheListener h l (Some {| query := q; type := observerRemoved |}) s
  = if (getObserversCount q =? 0)%Z then firestoreUnsubscribe h s else s.
Proof.
  intros Hc. unfold cacheListener. rewrite Hc. simpl.
  by destruct (getObserversCount q =? 0)%Z.
Qed.

Lemma cacheListener_queryRemoved h l q s :
  concerns l {| query := q; type := queryRemoved |} = true →
  cacheListener h l (Some {| query := q; type := queryRemoved |}) s
  = firestoreUnsubscribe h (queryCacheUnsubscribe h s).
Proof. intros Hc. unfold cacheListener. by rewrite Hc. Qed.

Lemma cacheListener_attach_open h l q s :
  concerns l {| query := q; type := observerAdded |} = true →
  firestoreUnsubscribes s !! h = None →
  cacheListener h l (Some {| query := q; type := observerAdded |}) s
  = set_firestoreUnsubscribes <[h := nextUnsubscribe s]>
      (pushAll h l (pushedOnSubscribe (l_subscribeFn l))
         (emit (CallSubscribeFn h (nextUnsubscribe s)) (set_nextUnsubscribe S s))).
Proof.
  intros Hc Hf. unfold cacheListener. rewrite Hc. simpl.
  by rewrite isSubscribed_false.
Qed.

Lemma cacheListener_attach_subscribed h l q s u :
  concerns l {| query := q; type := observerAdded |} = true →
  firestoreUnsubscribes s !! h = Some u →
  cacheListener h l (Some {| query := q; type := observerAdded |}) s
  = if hasData h s
    then emit (ResolvePromise (l_resolvePromise l)
                 (js_nullish (getQueryData (l_queryKey l) s) JsNull)) s
    else s.
Proof.
  intros Hc Hf. unfold cacheListener. rewrite Hc. simpl.
  by rewrite (isSubscribed_true _ _ u).
Qed.

Lemma concerns_mk l q t :
  queryHash q = l_hashFn l (l_queryKey l) →
  concerns l {| query := q; type := t |} = true.
Proof. intros Hq. unfold concerns. simpl. by apply bool_decide_eq_true. Qed.

(** ** Frame: what a listener, a callback and an effect leave alone *)

Lemma cacheListener_count p h l event s :
  quiet_for p h →
  count p (trace (cacheListener h l event s)) = count p (trace s).
Proof.
  intros (Ho & Hc & Hq & Hr & Hs).
  destruct event as [ev|]; [|done].
  unfold cacheListener. destruct (concerns l ev); simpl; [|done].
  destruct (type ev); try done.
  - rewrite firestoreUnsubscribe_trace, queryCacheUnsubscribe_trace, !count_app.
    rewrite queryCacheUnsubscribe_firestore.
    destruct (firestoreUnsubscribes s !! h), (queryCacheUnsubscribes s !! h);
      simpl; rewrite ?Hc, ?Hq; lia.
  - destruct (isSubscribedToFirestore h s).
    + destruct (hasData h s); [|done]. simpl. rewrite count_app. simpl.
      rewrite Hr. lia.
    + simpl. rewrite pushAll_count by done. simpl. rewrite count_app. simpl.
      rewrite Ho. lia.
  - destruct (getObserversCount (query ev) =? 0)%Z; cbn [negb]; [|done].
    rewrite firestoreUnsubscribe_trace, count_app.
    destruct (firestoreUnsubscribes s !! h); simpl; rewrite ?Hc; lia.
Qed.

Lemma cacheListener_firestore_ne h h' l event s :
  h' ≠ h →
  firestoreUnsubscribes (cacheListener h' l event s) !! h = firestoreUnsubscribes s !! h.
Proof.
  intros Hne. destruct event as [ev|]; [|done].
  unfold cacheListener. destruct (concerns l ev); simpl; [|done].
  destruct (type ev); try done.
  - rewrite firestoreUnsubscribe_firestore, lookup_delete_ne by done.
    by rewrite queryCacheUnsubscribe_firestore.
  - destruct (isSubscribedToFirestore h' s).
    + by destruct (hasData h' s).
    + simpl. rewrite lookup_insert_ne by done. by rewrite pushAll_firestore.
  - destruct (getObserversCount (query ev) =? 0)%Z; cbn [negb]; [|done].
    by rewrite firestoreUnsubscribe_firestore, lookup_delete_ne.
Qed.

Lemma cacheListener_listeners_ne h h' l event s :
  h' ≠ h →
  queryCacheUnsubscribes (cacheListener h' l event s) !! h
  = queryCacheUnsubscribes s !! h.
Proof.
  intros Hne. destruct event as [ev|]; [|done].
  unfold cacheListener. destruct (concerns l ev); simpl; [|done].
  destruct (type ev); try done.
  - rewrite firestoreUnsubscribe_listeners, queryCacheUnsubscribe_listeners.
    by rewrite lookup_delete_ne.
  - destruct (isSubscribedToFirestore h' s).
    + by destruct (hasData h' s).
    + simpl. by rewrite pushAll_listeners.
  - destruct (getObserversCount (query ev) =? 0)%Z; cbn [negb]; [|done].
    by rewrite firestoreUnsubscribe_listeners.
Qed.

Lemma cacheListener_eventCount_ne h h' l event s :
  h' ≠ h →
  eventCount (cacheListener h' l event s) !! h = eventCount s !! h.
Proof.
  intros Hne. destruct event as [ev|]; [|done].
  unfold cacheListener. destruct (concerns l ev); simpl; [|done].
  destruct (type ev); try done.
  - rewrite firestoreUnsubscribe_eventCount, lookup_delete_ne by done.
    by rewrite queryCacheUnsubscribe_eventCount.
  - destruct (isSubscribedToFirestore h' s).
    + by destruct (hasData h' s).
    + simpl. by rewrite pushAll_eventCount_ne.
  - destruct (getObserversCount (query ev) =? 0)%Z; cbn [negb]; [|done].
    by rewrite firestoreUnsubscribe_eventCount, lookup_delete_ne.
Qed.

(** The listener is uninstalled by a request removal about its own request
    and by nothing else. *)
Lemma cacheListener_listeners_kept h l event s :
  (∀ ev, event = Some ev → concerns l ev = true → type ev ≠ queryRemoved) →
  queryCacheUnsubscribes (cacheListener h l event s) = queryCacheUnsubscribes s.
Proof.
  intros Hkeep. destruct event as [ev|]; [|done].
  specialize (Hkeep ev eq_refl).
  unfold cacheListener. destruct (concerns l ev); simpl; [|done].
  destruct (type ev); try done.
  - by destruct Hkeep.
  - destruct (isSubscribedToFirestore h s).
    + by destruct (hasData h s).
    + simpl. by rewrite pushAll_listeners.
  - destruct (getObserversCount (query ev) =? 0)%Z; cbn [negb]; [|done].
    by rewrite firestoreUnsubscribe_listeners.
Qed.

Section Frame.

Variable hashQueryKey : QueryKey → string.

Lemma subscriptionEffect_firestore o qk sk slot sf s :
  firestoreUnsubscribes (subscriptionEffect hashQueryKey o qk sk slot sf s)
  = firestoreUnsubscribes s.
Proof. unfold subscriptionEffect. by repeat case_match. Qed.

Lemma subscriptionEffect_eventCount o qk sk slot sf s :
  eventCount (subscriptionEffect hashQueryKey o qk sk slot sf s) = eventCount s.
Proof. unfold subscriptionEffect. by repeat case_match. Qed.

Lemma subscriptionEffect_listeners_kept o qk sk slot sf s h l :
  queryCacheUnsubscribes s !! h = Some l →
  queryCacheUnsubscribes (subscriptionEffect hashQueryKey o qk sk slot sf s) !! h = Some l.
Proof.
  intros Hl. unfold subscriptionEffect.
  destruct (opt_onlyOnce o || negb (opt_enabled o)); [done|].
  destruct (queryCacheUnsubscribes s !! hashFn hashQueryKey o sk) eqn:Hq; [done|].
  simpl. rewrite lookup_insert_ne; [done|]. congruence.
Qed.

Lemma subscriptionEffect_count p o qk sk slot sf s :
  (∀ h, p (CallCacheSubscribe h) = false) →
  count p (trace (subscriptionEffect hashQueryKey o qk sk slot sf s)) = count p (trace s).
Proof.
  intros Hp. unfold subscriptionEffect. repeat case_match; try done.
  simpl. rewrite count_app. simpl. rewrite Hp. lia.
Qed.

(** A signal never makes the subscription path call [rejectPromise]. *)
Lemma step_no_reject sg s :
  count is_reject (trace (step hashQueryKey sg s)) = count is_reject (trace s).
Proof.
  destruct sg as [o qk sk slot sf|h event|h data|h err]; simpl.
  - by apply subscriptionEffect_count.
  - destruct (queryCacheUnsubscribes s !! h); [|done].
    apply cacheListener_count. by repeat split.
  - destruct (firestoreUnsubscribes s !! h); [|done].
    destruct (queryCacheUnsubscribes s !! h); [|done].
    by apply subscriptionCallback_count.
  - done.
Qed.

End Frame.

(** ** The listener on its own hash, away from teardown *)

Lemma tearing_evicting l ev : tearing l ev = false → evicting l ev = false.
Proof.
  unfold tearing, evicting. destruct (concerns l ev); simpl; [|done].
  by destruct (type ev).
Qed.

Lemma cacheListener_listeners_evicting h l ev s :
  evicting l ev = false →
  queryCacheUnsubscribes (cacheListener h l (Some ev) s) = queryCacheUnsubscribes s.
Proof.
  intros Hev. apply cacheListener_listeners_kept.
  intros ev' [= <-] Hc Ht. unfold evicting in Hev. by rewrite Hc, Ht in Hev.
Qed.

Lemma cacheListener_subscribed h l ev s u :
  firestoreUnsubscribes s !! h = Some u →
  tearing l ev = false →
  firestoreUnsubscribes (cacheListener h l (Some ev) s) = firestoreUnsubscribes s ∧
  eventCount (cacheListener h l (Some ev) s) = eventCount s ∧
  opens h (trace (cacheListener h l (Some ev) s)) = opens h (trace s) ∧
  closes h (trace (cacheListener h l (Some ev) s)) = closes h (trace s).
Proof.
  intros Hu Ht. unfold tearing in Ht. unfold cacheListener.
  destruct (concerns l ev); simpl in *; [|done].
  destruct (type ev); try done.
  - rewrite (isSubscribed_true _ _ u) by done.
    destruct (hasData h s); [|done]. simpl. unfold opens, closes.
    rewrite !count_app. simpl. split_and!; [done|done|lia|lia].
  - by rewrite Ht.
Qed.

Lemma cacheListener_unsubscribed h l ev s :
  firestoreUnsubscribes s !! h = None →
  tearing l ev = false →
  attaching l ev = false →
  firestoreUnsubscribes (cacheListener h l (Some ev) s) = firestoreUnsubscribes s ∧
  eventCount (cacheListener h l (Some ev) s) = eventCount s ∧
  trace (cacheListener h l (Some ev) s) = trace s.
Proof.
  intros Hu Ht Ha. unfold tearing in Ht. unfold attaching in Ha.
  unfold cacheListener.
  destruct (concerns l ev); simpl in *; [|done].
  destruct (type ev); try done.
  by rewrite Ht.
Qed.

Lemma cacheListener_opens h l ev s :
  firestoreUnsubscribes s !! h = None →
  attaching l ev = true →
  firestoreUnsubscribes (cacheListener h l (Some ev) s) !! h = Some (nextUnsubscribe s) ∧
  opens h (trace (cacheListener h l (Some ev) s)) = opens h (trace s) + 1 ∧
  closes h (trace (cacheListener h l (Some ev) s)) = closes h (trace s) ∧
  eventCount (cacheListener h l (Some ev) s)
  = eventCount (pushAll h l (pushedOnSubscribe (l_subscribeFn l)) s).
Proof.
  intros Hu Ha. unfold attaching in Ha.
  apply andb_prop in Ha as [Hc Ht].
  destruct ev as [q t]. simpl in Ht. destruct t; try done.
  rewrite cacheListener_attach_open by done. simpl.
  split_and!.
  - by rewrite lookup_insert_eq.
  - unfold opens. rewrite pushAll_count by done. simpl. rewrite count_app. simpl.
    rewrite bool_decide_eq_true_2 by done. lia.
  - unfold closes. rewrite pushAll_count by done. simpl. rewrite count_app. simpl.
    lia.
  - by apply pushAll_eventCount_ext.
Qed.

(** ** One signal, seen from one subscription hash *)

Arguments cacheListener : simpl never.
Arguments subscriptionCallback : simpl never.
Arguments subscriptionEffect : simpl never.

Section Steps.

Variable hashQueryKey : QueryKey → string.


Lemma run_cons sg sigs s : run hashQueryKey (sg :: sigs) s = run hashQueryKey sigs (step hashQueryKey sg s).
Proof. done. Qed.


Lemma on_listener_same h kind ev :
  on_listener h kind (Notify h (Some ev)) = kind ev.
Proof. simpl. by rewrite bool_decide_eq_true_2. Qed.

(** Only a request removal uninstalls the listener. *)
Lemma step_listener_kept sg s h l :
  queryCacheUnsubscribes s !! h = Some l →
  evicts h l sg = false →
  queryCacheUnsubscribes (step hashQueryKey sg s) !! h = Some l.
Proof.
  intros Hl Hev. destruct sg as [o qk sk slot sf|h' event|h' data|h' err]; simpl.
  - by apply subscriptionEffect_listeners_kept.
  - destruct (decide (h' = h)) as [->|Hne].
    + rewrite Hl. destruct event as [ev|]; [|done].
      unfold evicts in Hev. rewrite on_listener_same in Hev.
      by rewrite cacheListener_listeners_evicting.
    + destruct (queryCacheUnsubscribes s !! h'); [|done].
      by rewrite cacheListener_listeners_ne.
  - destruct (firestoreUnsubscribes s !! h'); [|done].
    destruct (queryCacheUnsubscribes s !! h'); [|done].
    by rewrite subscriptionCallback_listeners.
  - done.
Qed.

Lemma tears_down_evicts h l sg : tears_down h l sg = false → evicts h l sg = false.
Proof.
  unfold tears_down, evicts. destruct sg as [| h' [ev|] | |]; simpl; try done.
  destruct (bool_decide (h' = h)); simpl; [|done]. apply tearing_evicting.
Qed.

(** While a handle is stored, nothing but a teardown touches it, and
    [subscribeFn] is not called. *)
Lemma step_subscribed sg s h l u :
  queryCacheUnsubscribes s !! h = Some l →
  firestoreUnsubscribes s !! h = Some u →
  tears_down h l sg = false →
  firestoreUnsubscribes (step hashQueryKey sg s) !! h = Some u ∧
  opens h (trace (step hashQueryKey sg s)) = opens h (trace s).
Proof.
  intros Hl Hu Ht. destruct sg as [o qk sk slot sf|h' event|h' data|h' err]; simpl.
  - rewrite subscriptionEffect_firestore. split; [done|].
    by apply subscriptionEffect_count.
  - destruct (decide (h' = h)) as [->|Hne].
    + rewrite Hl. destruct event as [ev|]; [|done].
      unfold tears_down in Ht. rewrite on_listener_same in Ht.
      destruct (cacheListener_subscribed h l ev s u Hu Ht) as (Hf & _ & Ho & _).
      by rewrite Hf.
    + destruct (queryCacheUnsubscribes s !! h'); [|done].
      rewrite cacheListener_firestore_ne by done. split; [done|].
      apply cacheListener_count. repeat split; try done.
      intros u'. simpl. by rewrite bool_decide_eq_false_2.
  - destruct (firestoreUnsubscribes s !! h'); [|done].
    destruct (queryCacheUnsubscribes s !! h'); [|done].
    rewrite subscriptionCallback_firestore. split; [done|].
    by apply subscriptionCallback_count.
  - done.
Qed.

(** While no handle is stored, an attach opens the subscription, once; any
    other signal that is not a teardown leaves it closed. *)
Lemma step_unsubscribed sg s h l :
  queryCacheUnsubscribes s !! h = Some l →
  firestoreUnsubscribes s !! h = None →
  tears_down h l sg = false →
  if attaches h l sg
  then firestoreUnsubscribes (step hashQueryKey sg s) !! h = Some (nextUnsubscribe s) ∧
       opens h (trace (step hashQueryKey sg s)) = opens h (trace s) + 1
  else firestoreUnsubscribes (step hashQueryKey sg s) !! h = None ∧
       opens h (trace (step hashQueryKey sg s)) = opens h (trace s).
Proof.
  intros Hl Hu Ht. destruct sg as [o qk sk slot sf|h' event|h' data|h' err]; simpl.
  - rewrite subscriptionEffect_firestore. split; [done|].
    by apply subscriptionEffect_count.
  - destruct (decide (h' = h)) as [->|Hne].
    + rewrite Hl. destruct event as [ev|]; [|done].
      unfold tears_down in Ht. rewrite on_listener_same in Ht.
      rewrite bool_decide_eq_true_2 by done. simpl.
      destruct (attaching l ev) eqn:Ha.
      * destruct (cacheListener_opens h l ev s Hu Ha) as (Hf & Ho & _). done.
      * destruct (cacheListener_unsubscribed h l ev s Hu Ht Ha) as (Hf & _ & Htr).
        by rewrite Hf, Htr.
    + assert (match event with
              | Some ev => bool_decide (h' = h) && attaching l ev
              | None => false
              end = false) as ->.
      { destruct event; [|done]. by rewrite bool_decide_eq_false_2. }
      destruct (queryCacheUnsubscribes s !! h'); [|done].
      rewrite cacheListener_firestore_ne by done. split; [done|].
      apply cacheListener_count. repeat split; try done.
      intros u'. simpl. by rewrite bool_decide_eq_false_2.
  - destruct (firestoreUnsubscribes s !! h'); [|done].
    destruct (queryCacheUnsubscribes s !! h'); [|done].
    rewrite subscriptionCallback_firestore. split; [done|].
    by apply subscriptionCallback_count.
  - done.
Qed.

(** ** Runs without teardown *)

Lemma run_subscribed sigs s h l u :
  queryCacheUnsubscribes s !! h = Some l →
  firestoreUnsubscribes s !! h = Some u →
  Forall (λ sg, tears_down h l sg = false) sigs →
  queryCacheUnsubscribes (run hashQueryKey sigs s) !! h = Some l ∧
  firestoreUnsubscribes (run hashQueryKey sigs s) !! h = Some u ∧
  opens h (trace (run hashQueryKey sigs s)) = opens h (trace s).
Proof.
  revert s. induction sigs as [|sg sigs IH]; intros s Hl Hu Hall; [done|].
  inversion Hall as [|? ? Hsg Hrest]; subst. rewrite run_cons.
  destruct (step_subscribed sg s h l u Hl Hu Hsg) as [Hu' Ho'].
  pose proof (step_listener_kept sg s h l Hl (tears_down_evicts _ _ _ Hsg)) as Hl'.
  destruct (IH (step hashQueryKey sg s) Hl' Hu' Hrest) as (? & ? & Ho).
  split_and!; [done|done|]. by rewrite Ho.
Qed.

Lemma run_opens_le sigs s h l :
  queryCacheUnsubscribes s !! h = Some l →
  Forall (λ sg, tears_down h l sg = false) sigs →
  opens h (trace (run hashQueryKey sigs s))
  ≤ opens h (trace s)
    + match firestoreUnsubscribes s !! h with Some _ => 0 | None => 1 end.
Proof.
  revert s. induction sigs as [|sg sigs IH]; intros s Hl Hall; [simpl; lia|].
  inversion Hall as [|? ? Hsg Hrest]; subst. rewrite run_cons.
  pose proof (step_listener_kept sg s h l Hl (tears_down_evicts _ _ _ Hsg)) as Hl'.
  specialize (IH (step hashQueryKey sg s) Hl' Hrest).
  destruct (firestoreUnsubscribes s !! h) as [u|] eqn:Hu.
  - destruct (step_subscribed sg s h l u Hl Hu Hsg) as [Hu' Ho'].
    rewrite Hu' in IH. lia.
  - pose proof (step_unsubscribed sg s h l Hl Hu Hsg) as Hstep.
    destruct (attaches h l sg).
    + destruct Hstep as [Hu' Ho']. rewrite Hu' in IH. lia.
    + destruct Hstep as [Hu' Ho']. rewrite Hu' in IH. lia.
Qed.

Lemma run_attach_opens sigs s h l :
  queryCacheUnsubscribes s !! h = Some l →
  firestoreUnsubscribes s !! h = None →
  Forall (λ sg, tears_down h l sg = false) sigs →
  Exists (λ sg, attaches h l sg = true) sigs →
  is_Some (firestoreUnsubscribes (run hashQueryKey sigs s) !! h) ∧
  opens h (trace (run hashQueryKey sigs s)) = opens h (trace s) + 1.
Proof.
  revert s. induction sigs as [|sg sigs IH]; intros s Hl Hu Hall Hex.
  { inversion Hex. }
  inversion Hall as [|? ? Hsg Hrest]; subst. rewrite run_cons.
  pose proof (step_listener_kept sg s h l Hl (tears_down_evicts _ _ _ Hsg)) as Hl'.
  pose proof (step_unsubscribed sg s h l Hl Hu Hsg) as Hstep.
  destruct (attaches h l sg) eqn:Ha.
  - destruct Hstep as [Hu' Ho'].
    destruct (run_subscribed sigs (step hashQueryKey sg s) h l _ Hl' Hu' Hrest) as (_ & Hf & Ho).
    split; [by eexists|]. by rewrite Ho.
  - destruct Hstep as [Hu' Ho'].
    inversion Hex as [? ? Hhead|? ? Htail]; subst; [congruence|].
    destruct (IH (step hashQueryKey sg s) Hl' Hu' Hrest Htail) as [Hf Ho].
    split; [done|]. by rewrite Ho, Ho'.
Qed.

End Steps.

(** ** The registry invariant holds in every run *)

Lemma balanced_init h : balanced h init.
Proof. split; [done|]. reflexivity. Qed.

Lemma firestoreUnsubscribe_balanced h s :
  balanced h s → balanced h (firestoreUnsubscribe h s).
Proof.
  intros [Hcnt Hbal]. unfold balanced.
  rewrite firestoreUnsubscribe_firestore, firestoreUnsubscribe_eventCount.
  rewrite firestoreUnsubscribe_trace, !lookup_delete_eq.
  split; [done|]. unfold opens, closes in *. rewrite !count_app.
  destruct (firestoreUnsubscribes s !! h); simpl.
  - rewrite bool_decide_eq_true_2 by done. lia.
  - lia.
Qed.

Lemma queryCacheUnsubscribe_balanced h h' s :
  balanced h s → balanced h (queryCacheUnsubscribe h' s).
Proof.
  intros [Hcnt Hbal]. unfold balanced.
  rewrite queryCacheUnsubscribe_firestore, queryCacheUnsubscribe_eventCount.
  rewrite queryCacheUnsubscribe_trace.
  split; [done|]. unfold opens, closes in *. rewrite !count_app.
  destruct (queryCacheUnsubscribes s !! h'); simpl; lia.
Qed.

Lemma cacheListener_balanced_same h l event s :
  balanced h s → balanced h (cacheListener h l event s).
Proof.
  intros Hbal. destruct event as [ev|]; [|done].
  destruct (tearing l ev) eqn:Ht.
  - unfold tearing in Ht. apply andb_prop in Ht as [Hc Ht].
    unfold cacheListener. rewrite Hc. cbn [negb].
    destruct (type ev); try done.
    + by apply firestoreUnsubscribe_balanced, queryCacheUnsubscribe_balanced.
    + rewrite Ht. cbn [negb]. by apply firestoreUnsubscribe_balanced.
  - destruct Hbal as [Hcnt Hb].
    destruct (firestoreUnsubscribes s !! h) as [u|] eqn:Hu.
    + destruct (cacheListener_subscribed h l ev s u Hu Ht) as (Hf & He & Ho & Hc).
      unfold balanced. rewrite Hf, He, Hu, Ho, Hc. done.
    + destruct (attaching l ev) eqn:Ha.
      * destruct (cacheListener_opens h l ev s Hu Ha) as (Hf & Ho & Hc & _).
        unfold balanced. rewrite Hf, Ho, Hc. split; [done|lia].
      * destruct (cacheListener_unsubscribed h l ev s Hu Ht Ha) as (Hf & He & Htr).
        unfold balanced. rewrite Hf, He, Htr, Hu. done.
Qed.

Lemma cacheListener_balanced_other h h' l event s :
  h' ≠ h → balanced h s → balanced h (cacheListener h' l event s).
Proof.
  intros Hne [Hcnt Hb]. unfold balanced.
  rewrite cacheListener_firestore_ne, cacheListener_eventCount_ne by done.
  split; [done|]. unfold opens, closes in *.
  rewrite !cacheListener_count; [done| |];
    repeat split; try done; intros u; simpl; by rewrite bool_decide_eq_false_2.
Qed.

Lemma subscriptionCallback_balanced h h' l data s :
  is_Some (firestoreUnsubscribes s !! h') →
  balanced h s → balanced h (subscriptionCallback h' l data s).
Proof.
  intros Hsub [Hcnt Hb]. unfold balanced.
  rewrite subscriptionCallback_firestore, subscriptionCallback_eventCount.
  unfold opens, closes in *. rewrite !subscriptionCallback_count by done.
  split; [|done]. intros Hu.
  rewrite lookup_insert_ne; [by apply Hcnt|].
  intros ->. rewrite Hu in Hsub. by destruct Hsub.
Qed.

Section Invariant.

Variable hashQueryKey : QueryKey → string.

Lemma step_balanced sg s h :
  balanced h s → balanced h (step hashQueryKey sg s).
Proof.
  intros Hbal. destruct sg as [o qk sk slot sf|h' event|h' data|h' err]; simpl.
  - destruct Hbal as [Hcnt Hb]. unfold balanced.
    rewrite subscriptionEffect_firestore, subscriptionEffect_eventCount.
    unfold opens, closes in *. by rewrite !subscriptionEffect_count.
  - destruct (queryCacheUnsubscribes s !! h'); [|done].
    destruct (decide (h' = h)) as [->|Hne].
    + by apply cacheListener_balanced_same.
    + by apply cacheListener_balanced_other.
  - destruct (firestoreUnsubscribes s !! h') eqn:Hu; [|done].
    destruct (queryCacheUnsubscribes s !! h'); [|done].
    apply subscriptionCallback_balanced; [|done]. rewrite Hu. by eexists.
  - done.
Qed.

Lemma run_balanced sigs s h :
  balanced h s → balanced h (run hashQueryKey sigs s).
Proof.
  revert s. induction sigs as [|sg sigs IH]; intros s Hbal; [done|].
  apply IH. by apply step_balanced.
Qed.

End Invariant.

(** ** The trace only grows, and the slot follows its first settlement *)

Lemma slotState_app slot tr1 tr2 :
  slotState slot (tr1 ++ tr2)
  = match slotState slot tr1 with
    | Pending => slotState slot tr2
    | settled => settled
    end.
Proof.
  induction tr1 as [|a tr1 IH]; simpl; [done|].
  destruct a; try done; by case_bool_decide.
Qed.

Lemma slotState_rejected slot tr err :
  slotState slot tr = RejectedWith err → 0 < count is_reject tr.
Proof.
  induction tr as [|a tr IH]; simpl; [done|].
  destruct a; simpl; try (intros; specialize (IH ltac:(done)); lia).
  - case_bool_decide; [done|]. intros. specialize (IH ltac:(done)). lia.
  - intros. lia.
Qed.

Lemma subscriptionCallback_extends h l data s :
  ∃ tr', trace (subscriptionCallback h l data s) = trace s ++ tr'.
Proof. unfold subscriptionCallback. case_match; simpl; by eexists. Qed.

Lemma pushAll_extends h l pushes s :
  ∃ tr', trace (pushAll h l pushes s) = trace s ++ tr'.
Proof.
  revert s. induction pushes as [|d ds IH]; intros s; simpl.
  - exists []. by rewrite app_nil_r.
  - destruct (IH (subscriptionCallback h l d s)) as [tr2 ->].
    destruct (subscriptionCallback_extends h l d s) as [tr1 ->].
    exists (tr1 ++ tr2). by rewrite app_assoc.
Qed.

Lemma cacheListener_extends h l event s :
  ∃ tr', trace (cacheListener h l event s) = trace s ++ tr'.
Proof.
  assert (∃ tr', trace s = trace s ++ tr') as Hrefl.
  { exists []. by rewrite app_nil_r. }
  destruct event as [ev|]; [|done].
  unfold cacheListener. destruct (concerns l ev); cbn [negb]; [|done].
  destruct (type ev); try done.
  - rewrite firestoreUnsubscribe_trace, queryCacheUnsubscribe_trace, <- app_assoc.
    by eexists.
  - destruct (isSubscribedToFirestore h s).
    + destruct (hasData h s); [|done]. simpl. by eexists.
    + cbn [trace set_firestoreUnsubscribes].
      destruct (pushAll_extends h l (pushedOnSubscribe (l_subscribeFn l))
                  (emit (CallSubscribeFn h (nextUnsubscribe s))
                     (set_nextUnsubscribe S s))) as [tr' ->].
      simpl. rewrite <- app_assoc. by eexists.
  - destruct (getObserversCount (query ev) =? 0)%Z; cbn [negb]; [|done].
    rewrite firestoreUnsubscribe_trace. by eexists.
Qed.

Section Extends.

Variable hashQueryKey : QueryKey → string.

Lemma step_extends sg s :
  ∃ tr', trace (step hashQueryKey sg s) = trace s ++ tr'.
Proof.
  assert (∃ tr', trace s = trace s ++ tr') as Hrefl.
  { exists []. by rewrite app_nil_r. }
  destruct sg as [o qk sk slot sf|h event|h data|h err]; simpl; [| | |done].
  - unfold subscriptionEffect. repeat case_match; try done. simpl. by eexists.
  - destruct (queryCacheUnsubscribes s !! h); [|done]. apply cacheListener_extends.
  - destruct (firestoreUnsubscribes s !! h); [|done].
    destruct (queryCacheUnsubscribes s !! h); [|done].
    apply subscriptionCallback_extends.
Qed.

Lemma run_extends sigs s :
  ∃ tr', trace (run hashQueryKey sigs s) = trace s ++ tr'.
Proof.
  revert s. induction sigs as [|sg sigs IH]; intros s.
  - exists []. simpl. by rewrite app_nil_r.
  - rewrite run_cons. destruct (IH (step hashQueryKey sg s)) as [tr2 ->].
    destruct (step_extends sg s) as [tr1 ->].
    exists (tr1 ++ tr2). by rewrite app_assoc.
Qed.

Lemma run_no_reject sigs s :
  count is_reject (trace (run hashQueryKey sigs s)) = count is_reject (trace s).
Proof.
  revert s. induction sigs as [|sg sigs IH]; intros s; [done|].
  rewrite run_cons, IH. apply step_no_reject.
Qed.

End Extends.

(** ** The slot of the installed listener is settled by the first event *)

Lemma settled_extends slot s s' tr' :
  trace s' = trace s ++ tr' → settled slot s → settled slot s'.
Proof.
  unfold settled. intros -> Hs. rewrite slotState_app.
  by destruct (slotState slot (trace s)).
Qed.

Lemma subscriptionCallback_settles h l data s :
  (is_Some (eventCount s !! h) → settled (l_resolvePromise l) s) →
  settled (l_resolvePromise l) (subscriptionCallback h l data s).
Proof.
  intros Hinv. unfold subscriptionCallback.
  destruct (js_incr (eventCountOf h s) =? 1)%Z eqn:Hone.
  - unfold settled. simpl. rewrite slotState_app.
    destruct (slotState (l_resolvePromise l) (trace s)); try done.
    simpl. by rewrite bool_decide_eq_true_2.
  - destruct (eventCount s !! h) as [n|] eqn:Hn.
    + eapply (settled_extends _ s); [|apply Hinv; by eexists]. by simpl.
    + unfold eventCountOf in Hone. by rewrite Hn in Hone.
Qed.

Lemma pushAll_settles h l pushes s :
  (is_Some (eventCount s !! h) → settled (l_resolvePromise l) s) →
  is_Some (eventCount (pushAll h l pushes s) !! h) →
  settled (l_resolvePromise l) (pushAll h l pushes s).
Proof.
  revert s. induction pushes as [|d ds IH]; intros s Hinv Hsome; simpl in *.
  - by apply Hinv.
  - apply IH; [|done]. intros _. by apply subscriptionCallback_settles.
Qed.

Lemma cacheListener_wired_same h l event s :
  queryCacheUnsubscribes s !! h = Some l →
  balanced h s → wired h s → wired h (cacheListener h l event s).
Proof.
  intros Hl [Hcnt _] [Hown Hset]. destruct event as [ev|]; [|done].
  destruct (tearing l ev) eqn:Ht.
  - assert (firestoreUnsubscribes (cacheListener h l (Some ev) s) !! h = None ∧
            eventCount (cacheListener h l (Some ev) s) !! h = None) as [Hf He].
    { unfold tearing in Ht. apply andb_prop in Ht as [Hc Ht].
      unfold cacheListener. rewrite Hc. cbn [negb].
      destruct (type ev); try done.
      - rewrite firestoreUnsubscribe_firestore, firestoreUnsubscribe_eventCount.
        by rewrite !lookup_delete_eq.
      - rewrite Ht. cbn [negb].
        rewrite firestoreUnsubscribe_firestore, firestoreUnsubscribe_eventCount.
        by rewrite !lookup_delete_eq. }
    split.
    + rewrite Hf. by intros [? ?].
    + intros l'. rewrite He. by intros [? ?].
  - pose proof (cacheListener_listeners_evicting h l ev s (tearing_evicting _ _ Ht))
      as Hkeep.
    split; [intros _; rewrite Hkeep, Hl; by eexists|].
    intros l' Hsome. rewrite Hkeep, Hl. intros [= <-].
    destruct (firestoreUnsubscribes s !! h) as [u|] eqn:Hu.
    + destruct (cacheListener_subscribed h l ev s u Hu Ht) as (_ & He & _ & _).
      rewrite He in Hsome.
      destruct (cacheListener_extends h l (Some ev) s) as [tr' Htr].
      eapply settled_extends; [done|]. by apply Hset.
    + destruct (attaching l ev) eqn:Ha.
      * unfold attaching in Ha. apply andb_prop in Ha as [Hc Hty].
        destruct ev as [q t]. simpl in Hty. destruct t; try done.
        rewrite cacheListener_attach_open in Hsome |- * by done.
        unfold settled. simpl in *.
        apply pushAll_settles; [|done].
        simpl. rewrite (Hcnt eq_refl). by intros [? ?].
      * destruct (cacheListener_unsubscribed h l ev s Hu Ht Ha) as (_ & He & Htr).
        rewrite He, (Hcnt eq_refl) in Hsome. by destruct Hsome.
Qed.

Lemma cacheListener_wired_other h h' l event s :
  h' ≠ h → wired h s → wired h (cacheListener h' l event s).
Proof.
  intros Hne [Hown Hset]. unfold wired.
  rewrite cacheListener_firestore_ne, cacheListener_listeners_ne by done.
  rewrite cacheListener_eventCount_ne by done.
  split; [done|]. intros l0 Hsome Hl0.
  destruct (cacheListener_extends h' l event s) as [tr' Htr].
  eapply settled_extends; [done|]. by apply Hset.
Qed.

Section Wired.

Variable hashQueryKey : QueryKey → string.

Lemma step_wired sg s h :
  balanced h s → wired h s → wired h (step hashQueryKey sg s).
Proof.
  intros Hbal Hw. destruct sg as [o qk sk slot sf|h' event|h' data|h' err]; simpl.
  - destruct Hbal as [Hcnt _]. destruct Hw as [Hown Hset]. unfold wired.
    rewrite subscriptionEffect_firestore, subscriptionEffect_eventCount.
    split.
    + intros Hsub. destruct (Hown Hsub) as [l0 Hl0].
      rewrite (subscriptionEffect_listeners_kept _ _ _ _ _ _ _ _ _ Hl0). by eexists.
    + intros l0 Hsome Hl0.
      assert (is_Some (firestoreUnsubscribes s !! h)) as Hsub.
      { destruct (firestoreUnsubscribes s !! h) eqn:Hu; [by eexists|].
        rewrite (Hcnt eq_refl) in Hsome. by destruct Hsome. }
      destruct (Hown Hsub) as [l1 Hl1].
      rewrite (subscriptionEffect_listeners_kept _ _ _ _ _ _ _ _ _ Hl1) in Hl0.
      injection Hl0 as <-.
      destruct (step_extends hashQueryKey (RunEffect o qk sk slot sf) s) as [tr' Htr].
      eapply settled_extends; [done|]. by apply Hset.
  - destruct (queryCacheUnsubscribes s !! h') as [l'|] eqn:Hl'; [|done].
    destruct (decide (h' = h)) as [->|Hne].
    + by apply cacheListener_wired_same.
    + by apply cacheListener_wired_other.
  - destruct (firestoreUnsubscribes s !! h') eqn:Hu; [|done].
    destruct (queryCacheUnsubscribes s !! h') as [l'|] eqn:Hl'; [|done].
    destruct Hw as [Hown Hset]. unfold wired.
    rewrite subscriptionCallback_firestore, subscriptionCallback_listeners.
    split; [done|]. intros l0 Hsome Hl0.
    destruct (decide (h' = h)) as [->|Hne].
    + rewrite Hl' in Hl0. injection Hl0 as <-.
      apply subscriptionCallback_settles. intros Hs. by apply Hset.
    + rewrite subscriptionCallback_eventCount, lookup_insert_ne in Hsome by done.
      destruct (subscriptionCallback_extends h' l' data s) as [tr' Htr].
      eapply settled_extends; [done|]. by apply Hset.
  - done.
Qed.

Lemma run_wired sigs s h :
  balanced h s → wired h s → wired h (run hashQueryKey sigs s).
Proof.
  revert s. induction sigs as [|sg sigs IH]; intros s Hbal Hw; [done|].
  rewrite run_cons. apply IH; [by apply step_balanced|by apply step_wired].
Qed.

Lemma wired_init h : wired h init.
Proof.
  split.
  - intros [? Hu]. simpl in Hu. by rewrite lookup_empty in Hu.
  - intros l [? He]. simpl in He. by rewrite lookup_empty in He.
Qed.

End Wired.

(** ** Filing data in the cache *)

Lemma fileData_holds queryHash clientHashFn data queries :
  ∃ q, q ∈ fileData queryHash clientHashFn data queries ∧
       cq_queryHash q = queryHash ∧ cq_data q = data.
Proof.
  induction queries as [|q0 rest IH]; simpl.
  - eexists. split; [apply list_elem_of_here|done].
  - case_bool_decide as Hh.
    + eexists. split; [apply list_elem_of_here|done].
    + destruct IH as (q & Hin & Hq). exists q. split; [|done].
      by apply list_elem_of_further.
Qed.

Lemma fileData_keeps queryHash clientHashFn data queries q :
  q ∈ queries → cq_queryHash q ≠ queryHash →
  q ∈ fileData queryHash clientHashFn data queries.
Proof.
  intros Hin Hne. induction queries as [|q0 rest IH]; simpl.
  - by apply elem_of_nil in Hin.
  - apply elem_of_cons in Hin as [->|Hin].
    + rewrite bool_decide_eq_false_2 by done. apply list_elem_of_here.
    + case_bool_decide.
      * by apply list_elem_of_further.
      * by apply list_elem_of_further, IH.
Qed.

(** The first query that answers for the key is filed under the hash the
    data goes to: the data is what is read back. *)
Lemma find_fileData_same key clientHashFn data queries :
  Forall (λ q, matchQuery key q = true ↔ cq_queryHash q = clientHashFn key) queries →
  ∃ q, List.find (matchQuery key)
         (fileData (clientHashFn key) clientHashFn data queries) = Some q ∧
       cq_data q = data.
Proof.
  induction queries as [|q0 rest IH]; intros Hall; simpl.
  - unfold matchQuery at 1. simpl. rewrite bool_decide_eq_true_2 by done.
    by eexists.
  - inversion Hall as [|? ? Hq0 Hrest]; subst. case_bool_decide as Hh.
    + simpl. unfold matchQuery at 1. simpl.
      apply Hq0 in Hh. unfold matchQuery in Hh. rewrite Hh. by eexists.
    + simpl. destruct (matchQuery key q0) eqn:Hm.
      * destruct Hq0 as [Hq0 _]. by specialize (Hq0 eq_refl).
      * by apply IH.
Qed.

(** The first query that answers for the key is filed under another hash:
    it still answers, with the data it had. *)
Lemma find_fileData_other key queryHash clientHashFn data queries q :
  List.find (matchQuery key) queries = Some q →
  cq_queryHash q ≠ queryHash →
  List.find (matchQuery key) (fileData queryHash clientHashFn data queries) = Some q.
Proof.
  intros Hfind Hne. induction queries as [|q0 rest IH]; simpl in *; [done|].
  destruct (matchQuery key q0) eqn:Hm.
  - injection Hfind as ->. rewrite bool_decide_eq_false_2 by done.
    simpl. by rewrite Hm.
  - case_bool_decide.
    + simpl. unfold matchQuery at 1. simpl. unfold matchQuery in Hm. by rewrite Hm.
    + simpl. rewrite Hm. by apply IH.
Qed.

(** * Main results *)

(** C1: for every sequence of signals that reaches the listener of one
    subscription identity and contains no detach-to-zero and no request
    removal, starting where no subscription is open, [subscribeFn] is invoked
    exactly once as soon as the sequence holds an attach: the first attach
    opens, every further one finds the stored handle and opens nothing.  At
    every point of the sequence at most one opened subscription has not been
    closed. *)
Theorem attach_opens_exactly_once
    (hashQueryKey : QueryKey → string) (h : string) (l : Listener)
    (s : State) (sigs : list Signal) :
  balanced h s →
  queryCacheUnsubscribes s !! h = Some l →
  firestoreUnsubscribes s !! h = None →
  Forall (λ sg, tears_down h l sg = false) sigs →
  Exists (λ sg, attaches h l sg = true) sigs →
  opens h (trace (run hashQueryKey sigs s)) = opens h (trace s) + 1 ∧
  is_Some (firestoreUnsubscribes (run hashQueryKey sigs s) !! h) ∧
  (∀ sigs1 sigs2, sigs = sigs1 ++ sigs2 →
     opens h (trace (run hashQueryKey sigs1 s)) ≤ opens h (trace s) + 1 ∧
     opens h (trace (run hashQueryKey sigs1 s))
     ≤ closes h (trace (run hashQueryKey sigs1 s)) + 1).
Proof.
  intros Hbal Hl Hu Hall Hex.
  destruct (run_attach_opens hashQueryKey sigs s h l Hl Hu Hall Hex) as [Hf Ho].
  split_and!; [done|done|].
  intros sigs1 sigs2 ->. apply Forall_app in Hall as [Hall1 _]. split.
  - pose proof (run_opens_le hashQueryKey sigs1 s h l Hl Hall1) as Hle.
    rewrite Hu in Hle. done.
  - destruct (run_balanced hashQueryKey sigs1 s h Hbal) as [_ Hb].
    destruct (firestoreUnsubscribes (run hashQueryKey sigs1 s) !! h); lia.
Qed.

Lemma attach_opens_exactly_once_witness :
  opens "S1" (trace (run joinKey churn mounted)) = opens "S1" (trace mounted) + 1 ∧
  is_Some (firestoreUnsubscribes (run joinKey churn mounted) !! "S1") ∧
  (∀ sigs1 sigs2, churn = sigs1 ++ sigs2 →
     opens "S1" (trace (run joinKey sigs1 mounted)) ≤ opens "S1" (trace mounted) + 1 ∧
     opens "S1" (trace (run joinKey sigs1 mounted))
     ≤ closes "S1" (trace (run joinKey sigs1 mounted)) + 1).
Proof.
  apply (attach_opens_exactly_once joinKey "S1" q1Listener mounted churn).
  - split; [intros _|]; vm_compute; reflexivity.
  - vm_compute; reflexivity.
  - vm_compute; reflexivity.
  - repeat constructor.
  - apply Exists_cons_hd. vm_compute; reflexivity.
Defined.

(** C3, where the code departs from it: [Q1] has received "a" and "b"
    through [S1] when a second consumer attaches, with a pending slot of its
    own (8).  No subscription is opened, as the claim says; but the one call
    made is [resolvePromise] of the render that installed the listener (slot
    7), which the value "a" settled long ago, so the cached "b" is delivered
    to no slot and the newcomer's slot is still pending. *)
Lemma late_attach_leaves_the_newcomers_slot_pending :
  let s := secondConsumerMounted in
  let s' := step joinKey secondConsumerAttaches s in
  getQueryData ["Q1"] s = JsString "b" ∧
  slotState 7 (trace s) = ResolvedWith (JsString "a") ∧
  slotState 8 (trace s) = Pending ∧
  opens "S1" (trace s') = opens "S1" (trace s) ∧
  trace s' = trace s ++ [ResolvePromise 7 (JsString "b")] ∧
  slotState 7 (trace s') = ResolvedWith (JsString "a") ∧
  slotState 8 (trace s') = Pending.
Proof. vm_compute. split_and!; done. Qed.

(** An attach that arrives while a handle is stored for the identity and
    its counter shows at least one event does not call [subscribeFn]; the
    only call it makes is [resolvePromise] of the render that installed the
    listener, with what [getQueryData] returns for the listener's key
    ([null] when that is undefined or null).  The tables and the cache are
    left as they were. *)
Theorem late_attach_calls_resolve_of_the_installing_render
    (h : string) (l : Listener) (q : Query) (s : State) (u : Unsubscribe) (n : Z) :
  queryHash q = l_hashFn l (l_queryKey l) →
  firestoreUnsubscribes s !! h = Some u →
  eventCount s !! h = Some n →
  (1 ≤ n)%Z →
  let s' := cacheListener h l (Some {| query := q; type := observerAdded |}) s in
  opens h (trace s') = opens h (trace s) ∧
  firestoreUnsubscribes s' = firestoreUnsubscribes s ∧
  queryCacheUnsubscribes s' = queryCacheUnsubscribes s ∧
  eventCount s' = eventCount s ∧
  queryData s' = queryData s ∧
  trace s'
  = trace s ++ [ResolvePromise (l_resolvePromise l)
                  (js_nullish (getQueryData (l_queryKey l) s) JsNull)] ∧
  (getQueryData (l_queryKey l) s ≠ JsUndefined →
   getQueryData (l_queryKey l) s ≠ JsNull →
   trace s'
   = trace s ++ [ResolvePromise (l_resolvePromise l) (getQueryData (l_queryKey l) s)]).
Proof.
  intros Hq Hu Hn Hpos s'. subst s'.
  rewrite (cacheListener_attach_subscribed h l q s u) by (by apply concerns_mk || done).
  assert (hasData h s = true) as ->.
  { unfold hasData. rewrite Hn. destruct (Z.eqb_spec n 0); [lia|done]. }
  simpl. split_and!; try done.
  - unfold opens. rewrite count_app. simpl. lia.
  - intros Hundef Hnull. by destruct (getQueryData (l_queryKey l) s).
Qed.

Lemma late_attach_calls_resolve_of_the_installing_render_witness :
  let s' := cacheListener "S1" q1Listener
              (Some {| query := {| queryHash := "Q1"; getObserversCount := 2 |};
                       type := observerAdded |}) streaming in
  opens "S1" (trace s') = opens "S1" (trace streaming) ∧
  firestoreUnsubscribes s' = firestoreUnsubscribes streaming ∧
  queryCacheUnsubscribes s' = queryCacheUnsubscribes streaming ∧
  eventCount s' = eventCount streaming ∧
  queryData s' = queryData streaming ∧
  trace s'
  = trace streaming ++ [ResolvePromise (l_resolvePromise q1Listener)
                  (js_nullish (getQueryData (l_queryKey q1Listener) streaming) JsNull)] ∧
  (getQueryData (l_queryKey q1Listener) streaming ≠ JsUndefined →
   getQueryData (l_queryKey q1Listener) streaming ≠ JsNull →
   trace s'
   = trace streaming
     ++ [ResolvePromise (l_resolvePromise q1Listener)
           (getQueryData (l_queryKey q1Listener) streaming)]).
Proof.
  apply (late_attach_calls_resolve_of_the_installing_render "S1" q1Listener
           {| queryHash := "Q1"; getObserversCount := 2 |} streaming 0 2).
  - vm_compute; reflexivity.
  - vm_compute; reflexivity.
  - vm_compute; reflexivity.
  - lia.
Defined.

(** C4: an [observerRemoved] event about the listener's request, received
    while a handle is stored, invokes that handle and deletes the handle and
    the event counter exactly when the observer count it carries is zero;
    with any other count the state is left as it was. *)
Theorem observerRemoved_tears_down_iff_zero
    (h : string) (l : Listener) (q : Query) (s : State) (u : Unsubscribe) :
  queryHash q = l_hashFn l (l_queryKey l) →
  firestoreUnsubscribes s !! h = Some u →
  let s' := cacheListener h l (Some {| query := q; type := observerRemoved |}) s in
  (getObserversCount q = 0%Z →
     trace s' = trace s ++ [CallUnsubscribe h u] ∧
     firestoreUnsubscribes s' = delete h (firestoreUnsubscribes s) ∧
     eventCount s' = delete h (eventCount s) ∧
     queryCacheUnsubscribes s' = queryCacheUnsubscribes s ∧
     queryData s' = queryData s) ∧
  (getObserversCount q ≠ 0%Z → s' = s) ∧
  (firestoreUnsubscribes s' !! h = None ↔ getObserversCount q = 0%Z).
Proof.
  intros Hq Hu s'. subst s'.
  rewrite cacheListener_observerRemoved by (by apply concerns_mk).
  destruct (Z.eqb_spec (getObserversCount q) 0) as [Hz|Hnz].
  - split_and!.
    + intros _. rewrite firestoreUnsubscribe_trace, Hu.
      rewrite firestoreUnsubscribe_firestore, firestoreUnsubscribe_eventCount.
      rewrite firestoreUnsubscribe_listeners. split_and!; try done.
      unfold firestoreUnsubscribe. by rewrite Hu.
    + done.
    + rewrite firestoreUnsubscribe_firestore, lookup_delete_eq. done.
  - split_and!; [done|done|]. rewrite Hu. split; [done|]. done.
Qed.

Lemma observerRemoved_tears_down_iff_zero_witness :
  let q := {| queryHash := "Q1"; getObserversCount := 0 |} in
  let s' := cacheListener "S1" q1Listener
              (Some {| query := q; type := observerRemoved |}) streaming in
  (getObserversCount q = 0%Z →
     trace s' = trace streaming ++ [CallUnsubscribe "S1" 0] ∧
     firestoreUnsubscribes s' = delete "S1" (firestoreUnsubscribes streaming) ∧
     eventCount s' = delete "S1" (eventCount streaming) ∧
     queryCacheUnsubscribes s' = queryCacheUnsubscribes streaming ∧
     queryData s' = queryData streaming) ∧
  (getObserversCount q ≠ 0%Z → s' = streaming) ∧
  (firestoreUnsubscribes s' !! "S1" = None ↔ getObserversCount q = 0%Z).
Proof.
  apply (observerRemoved_tears_down_iff_zero "S1" q1Listener
           {| queryHash := "Q1"; getObserversCount := 0 |} streaming 0).
  - vm_compute; reflexivity.
  - vm_compute; reflexivity.
Defined.

(** C5: a [queryRemoved] event about the listener's request uninstalls the
    cache listener, invokes and deletes the stored handle and deletes the
    event counter of the identity, whatever observer count the event
    carries; running the same teardown again, or receiving the event again,
    changes nothing. *)
Theorem queryRemoved_clears_bookkeeping
    (h : string) (l : Listener) (q : Query) (s : State) :
  queryHash q = l_hashFn l (l_queryKey l) →
  let s' := cacheListener h l (Some {| query := q; type := queryRemoved |}) s in
  queryCacheUnsubscribes s' = delete h (queryCacheUnsubscribes s) ∧
  firestoreUnsubscribes s' = delete h (firestoreUnsubscribes s) ∧
  eventCount s' = delete h (eventCount s) ∧
  trace s'
  = trace s
    ++ match queryCacheUnsubscribes s !! h with
       | Some _ => [CallCacheUnsubscribe h]
       | None => []
       end
    ++ match firestoreUnsubscribes s !! h with
       | Some u => [CallUnsubscribe h u]
       | None => []
       end ∧
  firestoreUnsubscribe h (queryCacheUnsubscribe h s') = s' ∧
  cacheListener h l (Some {| query := q; type := queryRemoved |}) s' = s'.
Proof.
  intros Hq s'. subst s'.
  rewrite !cacheListener_queryRemoved by (by apply concerns_mk).
  set (s' := firestoreUnsubscribe h (queryCacheUnsubscribe h s)).
  assert (queryCacheUnsubscribes s' = delete h (queryCacheUnsubscribes s)) as Hl.
  { unfold s'. by rewrite firestoreUnsubscribe_listeners, queryCacheUnsubscribe_listeners. }
  assert (firestoreUnsubscribes s' = delete h (firestoreUnsubscribes s)) as Hf.
  { unfold s'. by rewrite firestoreUnsubscribe_firestore, queryCacheUnsubscribe_firestore. }
  assert (eventCount s' = delete h (eventCount s)) as He.
  { unfold s'. by rewrite firestoreUnsubscribe_eventCount, queryCacheUnsubscribe_eventCount. }
  assert (firestoreUnsubscribe h (queryCacheUnsubscribe h s') = s') as Hidem.
  { rewrite queryCacheUnsubscribe_absent by (by rewrite Hl, lookup_delete_eq).
    apply firestoreUnsubscribe_absent.
    - by rewrite Hf, lookup_delete_eq.
    - by rewrite He, lookup_delete_eq. }
  split_and!; try done.
  unfold s'. rewrite firestoreUnsubscribe_trace, queryCacheUnsubscribe_trace.
  by rewrite queryCacheUnsubscribe_firestore, app_assoc.
Qed.

Lemma queryRemoved_clears_bookkeeping_witness :
  let q := {| queryHash := "Q1"; getObserversCount := 2 |} in
  let s' := cacheListener "S1" q1Listener
              (Some {| query := q; type := queryRemoved |}) streaming in
  queryCacheUnsubscribes s' = delete "S1" (queryCacheUnsubscribes streaming) ∧
  firestoreUnsubscribes s' = delete "S1" (firestoreUnsubscribes streaming) ∧
  eventCount s' = delete "S1" (eventCount streaming) ∧
  trace s'
  = trace streaming
    ++ match queryCacheUnsubscribes streaming !! "S1" with
       | Some _ => [CallCacheUnsubscribe "S1"]
       | None => []
       end
    ++ match firestoreUnsubscribes streaming !! "S1" with
       | Some u => [CallUnsubscribe "S1" u]
       | None => []
       end ∧
  firestoreUnsubscribe "S1" (queryCacheUnsubscribe "S1" s') = s' ∧
  cacheListener "S1" q1Listener (Some {| query := q; type := queryRemoved |}) s' = s'.
Proof.
  apply (queryRemoved_clears_bookkeeping "S1" q1Listener
           {| queryHash := "Q1"; getObserversCount := 2 |} streaming).
  vm_compute; reflexivity.
Defined.

(** C6: with [onlyOnce] set, the hook enabled and no [fetchFn], the one-shot
    effect throws its configuration error at once and leaves the shared
    state as it found it; the subscription effect of the same options
    returns without touching the state either. *)
Theorem onlyOnce_without_fetchFn_throws
    (hashQueryKey : QueryKey → string) (o : UseSubscriptionOptions)
    (queryKey subscriptionKey : QueryKey) (slot : nat)
    (subscribeFn : SubscribeFn) (s : State) :
  onlyOnce o = Some true →
  default true (enabled o) = true →
  fetchFn o = None →
  onlyOnceEffect (Some o) slot s
  = (Threw "You must specify fetchFn if using onlyOnce mode.", s) ∧
  subscriptionEffect hashQueryKey (Some o) queryKey subscriptionKey slot subscribeFn s = s.
Proof.
  intros Honce Hen Hfetch. split.
  - unfold onlyOnceEffect, opt_onlyOnce, opt_enabled. simpl.
    by rewrite Honce, Hen, Hfetch.
  - unfold subscriptionEffect, opt_onlyOnce. simpl. by rewrite Honce.
Qed.

Lemma onlyOnce_without_fetchFn_throws_witness :
  onlyOnceEffect (Some onceNoFetch) 7 streaming
  = (Threw "You must specify fetchFn if using onlyOnce mode.", streaming) ∧
  subscriptionEffect joinKey (Some onceNoFetch) ["Q1"] ["S1"] 7 quietSource streaming
  = streaming.
Proof.
  apply (onlyOnce_without_fetchFn_throws joinKey onceNoFetch ["Q1"] ["S1"] 7
           quietSource streaming); reflexivity.
Defined.

(** C7: once the cleanup of a one-shot effect has run, the settlement of the
    promise returned by [fetchFn], fulfilled or rejected, calls neither
    [resolvePromise] nor [rejectPromise]: the state and the trace stay as
    they were.  (Without the cleanup the same settlement makes the call.) *)
Theorem cancelled_fetch_is_suppressed
    (options : option UseSubscriptionOptions) (slot : nat) (s s1 s2 : State)
    (r : OneShot) (outcome : Settlement) :
  onlyOnceEffect options slot s = (ReturnedCleanup r, s1) →
  settle (cleanup r) outcome s2 = s2 ∧
  settle r outcome s2
  = emit match outcome with
         | Fulfilled data => ResolvePromise slot data
         | Rejected err => RejectPromise slot err
         end s2.
Proof.
  intros Hrun. split.
  - by destruct outcome.
  - unfold onlyOnceEffect in Hrun.
    destruct (negb (opt_onlyOnce options) || negb (opt_enabled options)); [done|].
    destruct (options ≫= fetchFn); [|done].
    injection Hrun as <- _. by destruct outcome.
Qed.

Lemma cancelled_fetch_is_suppressed_witness :
  settle (cleanup {| cancelled := false; os_resolvePromise := 7; os_rejectPromise := 7 |})
    (Rejected (JsString "offline")) mounted = mounted ∧
  settle {| cancelled := false; os_resolvePromise := 7; os_rejectPromise := 7 |}
    (Rejected (JsString "offline")) mounted
  = emit (RejectPromise 7 (JsString "offline")) mounted.
Proof.
  apply (cancelled_fetch_is_suppressed (Some onceWithFetch) 7 init
           (emit (CallFetchFn 3) init) mounted
           {| cancelled := false; os_resolvePromise := 7; os_rejectPromise := 7 |}
           (Rejected (JsString "offline"))).
  reflexivity.
Defined.

(** C8, as stated, fails: the source reports a failure while the
    subscription of [S1] is open and no value has been pushed; the slot of the
    request is pending before and still pending after, and no call of
    [rejectPromise] was made. *)
Lemma delivery_error_before_first_event_is_dropped :
  queryCacheUnsubscribes attached !! "S1" = Some q1Listener ∧
  firestoreUnsubscribes attached !! "S1" = Some 0 ∧
  eventCount attached !! "S1" = None ∧
  slotState 7 (trace attached) = Pending ∧
  slotState 7 (trace (step joinKey permissionDenied attached))
  ≠ RejectedWith (JsString "permission-denied") ∧
  slotState 7 (trace (step joinKey permissionDenied attached)) = Pending ∧
  count is_reject (trace (step joinKey permissionDenied attached)) = 0.
Proof. vm_compute. split_and!; done. Qed.

(** C8, amended: no signal on the subscription path ever calls
    [rejectPromise].  A failure of the external source runs no code of the
    bridge and leaves the state as it was, before the first value as well as
    after it; whatever the signals, a slot is rejected afterwards only if it
    was rejected already. *)
Theorem delivery_error_is_always_dropped
    (hashQueryKey : QueryKey → string) (sigs : list Signal) (s : State) :
  (∀ h err, step hashQueryKey (SourceError h err) s = s) ∧
  count is_reject (trace (run hashQueryKey sigs s)) = count is_reject (trace s) ∧
  (∀ slot err,
     slotState slot (trace (run hashQueryKey sigs s)) = RejectedWith err →
     slotState slot (trace s) = RejectedWith err).
Proof.
  split_and!; [done|apply run_no_reject|].
  intros slot err Hrej.
  pose proof (run_no_reject hashQueryKey sigs s) as Hcount.
  destruct (run_extends hashQueryKey sigs s) as [tr' Htr].
  rewrite Htr in Hrej, Hcount. rewrite count_app in Hcount.
  rewrite slotState_app in Hrej.
  destruct (slotState slot (trace s)); [|done|done].
  apply slotState_rejected in Hrej. lia.
Qed.

(** C9: in a state reached from the empty tables, an attach that finds no
    handle for the identity calls [subscribeFn] and stores the handle it
    returns; if the source pushes nothing during that call, the identity has
    no counter entry afterwards, so its event count reads 0 and [hasData] is
    false. *)
Theorem counter_zero_after_open
    (hashQueryKey : QueryKey → string) (pre : list Signal)
    (h : string) (l : Listener) (q : Query) :
  let s := run hashQueryKey pre init in
  queryCacheUnsubscribes s !! h = Some l →
  firestoreUnsubscribes s !! h = None →
  pushedOnSubscribe (l_subscribeFn l) = [] →
  queryHash q = l_hashFn l (l_queryKey l) →
  let s' := step hashQueryKey
              (Notify h (Some {| query := q; type := observerAdded |})) s in
  trace s' = trace s ++ [CallSubscribeFn h (nextUnsubscribe s)] ∧
  firestoreUnsubscribes s' !! h = Some (nextUnsubscribe s) ∧
  eventCount s' !! h = None ∧
  eventCountOf h s' = 0%Z ∧
  hasData h s' = false.
Proof.
  intros s Hl Hu Hpush Hq s'. subst s'. simpl. rewrite Hl.
  rewrite cacheListener_attach_open by (by apply concerns_mk || done).
  rewrite Hpush. simpl.
  destruct (run_balanced hashQueryKey pre init h (balanced_init h)) as [Hcnt _].
  fold s in Hcnt. specialize (Hcnt Hu).
  unfold eventCountOf, hasData. simpl. rewrite Hcnt, lookup_insert_eq. done.
Qed.

Lemma counter_zero_after_open_witness :
  let s := run joinKey [RunEffect None ["Q1"] ["S1"] 7 quietSource] init in
  let s' := step joinKey
              (Notify "S1" (Some {| query := {| queryHash := "Q1";
                                                getObserversCount := 1 |};
                                    type := observerAdded |})) s in
  trace s' = trace s ++ [CallSubscribeFn "S1" (nextUnsubscribe s)] ∧
  firestoreUnsubscribes s' !! "S1" = Some (nextUnsubscribe s) ∧
  eventCount s' !! "S1" = None ∧
  eventCountOf "S1" s' = 0%Z ∧
  hasData "S1" s' = false.
Proof.
  apply (counter_zero_after_open joinKey
           [RunEffect None ["Q1"] ["S1"] 7 quietSource] "S1" q1Listener
           {| queryHash := "Q1"; getObserversCount := 1 |});
    vm_compute; reflexivity.
Defined.

(** C10: a detach that leaves no observer invokes and deletes the stored
    handle and deletes the event counter of the identity, and touches
    nothing else: the cache listener stays installed.  Running the
    subscription effect again for the identity installs nothing, the next
    attach is served by the same listener, which opens a new subscription,
    and no signal other than a request removal uninstalls the listener. *)
Theorem detach_to_zero_keeps_listener
    (hashQueryKey : QueryKey → string) (h : string) (l : Listener)
    (q : Query) (s : State) :
  queryCacheUnsubscribes s !! h = Some l →
  queryHash q = l_hashFn l (l_queryKey l) →
  getObserversCount q = 0%Z →
  let s' := step hashQueryKey
              (Notify h (Some {| query := q; type := observerRemoved |})) s in
  (queryCacheUnsubscribes s' = queryCacheUnsubscribes s ∧
   firestoreUnsubscribes s' = delete h (firestoreUnsubscribes s) ∧
   eventCount s' = delete h (eventCount s) ∧
   queryData s' = queryData s ∧
   trace s' = trace s ++ match firestoreUnsubscribes s !! h with
                         | Some u => [CallUnsubscribe h u]
                         | None => []
                         end) ∧
  (∀ o queryKey subscriptionKey slot subscribeFn,
     hashFn hashQueryKey o subscriptionKey = h →
     subscriptionEffect hashQueryKey o queryKey subscriptionKey slot subscribeFn s'
     = s') ∧
  (∀ n, let s'' := step hashQueryKey
                     (Notify h (Some {| query := {| queryHash := queryHash q;
                                                    getObserversCount := n |};
                                        type := observerAdded |})) s' in
     queryCacheUnsubscribes s'' = queryCacheUnsubscribes s ∧
     listens h (trace s'') = listens h (trace s) ∧
     opens h (trace s'') = opens h (trace s) + 1) ∧
  (∀ sg, evicts h l sg = false →
     queryCacheUnsubscribes (step hashQueryKey sg s) !! h = Some l).
Proof.
  intros Hl Hq Hzero s'.
  assert (s' = firestoreUnsubscribe h s) as Hs'.
  { subst s'. simpl. rewrite Hl.
    rewrite cacheListener_observerRemoved by (by apply concerns_mk).
    by rewrite Hzero. }
  assert (queryCacheUnsubscribes s' = queryCacheUnsubscribes s) as Hl'.
  { by rewrite Hs', firestoreUnsubscribe_listeners. }
  assert (firestoreUnsubscribes s' = delete h (firestoreUnsubscribes s)) as Hf'.
  { by rewrite Hs', firestoreUnsubscribe_firestore. }
  assert (trace s' = trace s ++ match firestoreUnsubscribes s !! h with
                                | Some u => [CallUnsubscribe h u]
                                | None => []
                                end) as Htr'.
  { by rewrite Hs', firestoreUnsubscribe_trace. }
  split; [|split; [|split]].
  - split_and!; try done.
    + by rewrite Hs', firestoreUnsubscribe_eventCount.
    + rewrite Hs'. unfold firestoreUnsubscribe. by case_match.
  - intros o qk sk slot sf Hh. unfold subscriptionEffect.
    destruct (opt_onlyOnce o || negb (opt_enabled o)); [done|].
    by rewrite Hh, Hl', Hl.
  - intros n s''. subst s''. cbn [step]. rewrite Hl', Hl.
    set (ev := {| query := {| queryHash := queryHash q; getObserversCount := n |};
                  type := observerAdded |}).
    assert (attaching l ev = true) as Ha.
    { unfold attaching, concerns. simpl. by rewrite bool_decide_eq_true_2. }
    assert (firestoreUnsubscribes s' !! h = None) as Hu'.
    { by rewrite Hf', lookup_delete_eq. }
    destruct (cacheListener_opens h l ev s' Hu' Ha) as (_ & Ho & _ & _).
    split_and!.
    + rewrite cacheListener_listeners_evicting; [done|].
      unfold evicting. by rewrite andb_false_r.
    + unfold listens. rewrite cacheListener_count by (by repeat split).
      rewrite Htr', count_app. destruct (firestoreUnsubscribes s !! h); simpl; lia.
    + rewrite Ho, Htr'. unfold opens. rewrite count_app.
      destruct (firestoreUnsubscribes s !! h); simpl; lia.
  - intros sg Hsg. by apply step_listener_kept.
Qed.

Lemma detach_to_zero_keeps_listener_witness :
  let q := {| queryHash := "Q1"; getObserversCount := 0 |} in
  let s' := step joinKey (Notify "S1" (Some {| query := q; type := observerRemoved |}))
              streaming in
  (queryCacheUnsubscribes s' = queryCacheUnsubscribes streaming ∧
   firestoreUnsubscribes s' = delete "S1" (firestoreUnsubscribes streaming) ∧
   eventCount s' = delete "S1" (eventCount streaming) ∧
   queryData s' = queryData streaming ∧
   trace s' = trace streaming ++ match firestoreUnsubscribes streaming !! "S1" with
                         | Some u => [CallUnsubscribe "S1" u]
                         | None => []
                         end) ∧
  (∀ o queryKey subscriptionKey slot subscribeFn,
     hashFn joinKey o subscriptionKey = "S1" →
     subscriptionEffect joinKey o queryKey subscriptionKey slot subscribeFn s' = s') ∧
  (∀ n, let s'' := step joinKey
                     (Notify "S1" (Some {| query := {| queryHash := queryHash q;
                                                    getObserversCount := n |};
                                        type := observerAdded |})) s' in
     queryCacheUnsubscribes s'' = queryCacheUnsubscribes streaming ∧
     listens "S1" (trace s'') = listens "S1" (trace streaming) ∧
     opens "S1" (trace s'') = opens "S1" (trace streaming) + 1) ∧
  (∀ sg, evicts "S1" q1Listener sg = false →
     queryCacheUnsubscribes (step joinKey sg streaming) !! "S1" = Some q1Listener).
Proof.
  apply (detach_to_zero_keeps_listener joinKey "S1" q1Listener
           {| queryHash := "Q1"; getObserversCount := 0 |} streaming);
    vm_compute; reflexivity.
Defined.

(** C2, where the code departs from it: the first value pushed on [S1] is
    the number 0.  The counter goes to 1 and [resolvePromise] is called, but
    with [null], not with the payload ([data || null] at line 170); the same
    payload pushed later is written to the store as it is. *)
Lemma first_event_falsy_payload_resolves_null :
  let s1 := step joinKey (Deliver "S1" (JsNumber 0)) attached in
  let s2 := step joinKey (Deliver "S1" (JsNumber 0)) s1 in
  eventCount s1 !! "S1" = Some 1%Z ∧
  trace s1 = trace attached ++ [ResolvePromise 7 JsNull] ∧
  slotState 7 (trace s1) = ResolvedWith JsNull ∧
  slotState 7 (trace s1) ≠ ResolvedWith (JsNumber 0) ∧
  trace s2 = trace s1 ++ [SetQueryData ["Q1"] (JsNumber 0)] ∧
  queryData s2
  = [{| cq_queryHash := "Q1"; cq_queryKeyHashFn := joinKey; cq_data := JsNumber 0 |}] ∧
  getQueryData ["Q1"] s2 = JsNumber 0.
Proof. vm_compute. split_and!; done. Qed.

(** ** Further properties of the callback and of the registry *)

(** Every invocation of the callback advances the counter of its identity
    by exactly one, as long as the counter is below 2^53; no other counter
    and neither registry is touched. *)
Theorem callback_increments_counter
    (h : string) (l : Listener) (data : JsValue) (s : State) :
  (0 ≤ eventCountOf h s < MAX_EXACT)%Z →
  eventCountOf h (subscriptionCallback h l data s) = (eventCountOf h s + 1)%Z ∧
  (∀ h', h' ≠ h →
     eventCount (subscriptionCallback h l data s) !! h' = eventCount s !! h') ∧
  firestoreUnsubscribes (subscriptionCallback h l data s) = firestoreUnsubscribes s ∧
  queryCacheUnsubscribes (subscriptionCallback h l data s) = queryCacheUnsubscribes s.
Proof.
  intros [Hlo Hhi].
  rewrite subscriptionCallback_firestore, subscriptionCallback_listeners.
  split_and!; try done.
  - unfold eventCountOf at 1. rewrite subscriptionCallback_eventCount.
    rewrite lookup_insert_eq. simpl. by apply js_incr_exact.
  - intros h' Hne. rewrite subscriptionCallback_eventCount.
    by rewrite lookup_insert_ne.
Qed.

Lemma callback_increments_counter_witness :
  eventCountOf "S1" (subscriptionCallback "S1" q1Listener (JsString "c") streaming)
  = (eventCountOf "S1" streaming + 1)%Z ∧
  (∀ h', h' ≠ "S1" →
     eventCount (subscriptionCallback "S1" q1Listener (JsString "c") streaming) !! h'
     = eventCount streaming !! h') ∧
  firestoreUnsubscribes (subscriptionCallback "S1" q1Listener (JsString "c") streaming)
  = firestoreUnsubscribes streaming ∧
  queryCacheUnsubscribes (subscriptionCallback "S1" q1Listener (JsString "c") streaming)
  = queryCacheUnsubscribes streaming.
Proof.
  apply (callback_increments_counter "S1" q1Listener (JsString "c") streaming).
  split; vm_compute; [discriminate|reflexivity].
Defined.

(** The invocation that finds no event counted resolves the slot with
    [data || null], which is the payload itself when the payload is truthy,
    and leaves the store alone. *)
Theorem callback_first_event_resolves
    (h : string) (l : Listener) (data : JsValue) (s : State) :
  eventCountOf h s = 0%Z →
  trace (subscriptionCallback h l data s)
  = trace s ++ [ResolvePromise (l_resolvePromise l) (js_or data JsNull)] ∧
  queryData (subscriptionCallback h l data s) = queryData s ∧
  eventCount (subscriptionCallback h l data s) !! h = Some 1%Z ∧
  (truthy data = true → js_or data JsNull = data).
Proof.
  intros Hzero. rewrite subscriptionCallback_first by done. simpl.
  rewrite lookup_insert_eq. split_and!; try done.
  unfold js_or. by intros ->.
Qed.

Lemma callback_first_event_resolves_witness :
  trace (subscriptionCallback "S1" q1Listener (JsString "a") attached)
  = trace attached
    ++ [ResolvePromise (l_resolvePromise q1Listener) (js_or (JsString "a") JsNull)] ∧
  queryData (subscriptionCallback "S1" q1Listener (JsString "a") attached)
  = queryData attached ∧
  eventCount (subscriptionCallback "S1" q1Listener (JsString "a") attached) !! "S1"
  = Some 1%Z ∧
  (truthy (JsString "a") = true → js_or (JsString "a") JsNull = JsString "a").
Proof.
  apply (callback_first_event_resolves "S1" q1Listener (JsString "a") attached).
  vm_compute; reflexivity.
Defined.

(** An invocation that finds at least one event counted makes one call,
    [setQueryData(queryKey, data)], with the payload unchanged, and none of
    [resolvePromise].  The key is hashed by the client's default hash
    function: the payload becomes the data of the query filed under that
    hash (one is added when the cache has none), and the queries filed under
    other hashes stay as they are. *)
Theorem callback_later_event_writes_cache
    (h : string) (l : Listener) (data : JsValue) (s : State) :
  (1 ≤ eventCountOf h s)%Z →
  let s' := subscriptionCallback h l data s in
  let queryHash := l_clientHashFn l (l_queryKey l) in
  trace s' = trace s ++ [SetQueryData (l_queryKey l) data] ∧
  queryData s' = fileData queryHash (l_clientHashFn l) data (queryData s) ∧
  (∃ q, q ∈ queryData s' ∧ cq_queryHash q = queryHash ∧ cq_data q = data) ∧
  (∀ q, q ∈ queryData s → cq_queryHash q ≠ queryHash → q ∈ queryData s').
Proof.
  intros Hpos s' queryHash. subst s'.
  rewrite subscriptionCallback_later by done. simpl.
  split_and!; [done|done| |].
  - apply fileData_holds.
  - apply fileData_keeps.
Qed.

Lemma callback_later_event_writes_cache_witness :
  let s' := subscriptionCallback "S1" q1Listener (JsNumber 0) streaming in
  let queryHash := l_clientHashFn q1Listener (l_queryKey q1Listener) in
  trace s' = trace streaming ++ [SetQueryData (l_queryKey q1Listener) (JsNumber 0)] ∧
  queryData s'
  = fileData queryHash (l_clientHashFn q1Listener) (JsNumber 0) (queryData streaming) ∧
  (∃ q, q ∈ queryData s' ∧ cq_queryHash q = queryHash ∧ cq_data q = JsNumber 0) ∧
  (∀ q, q ∈ queryData streaming → cq_queryHash q ≠ queryHash → q ∈ queryData s').
Proof.
  apply (callback_later_event_writes_cache "S1" q1Listener (JsNumber 0) streaming).
  vm_compute. discriminate.
Defined.

(** In every run from the empty tables and for every identity, the calls of
    [subscribeFn] exceed the calls of the handles it returned by one while a
    handle is stored and by none otherwise: at most one subscription is
    live, and a counter is kept only for a live one. *)
Theorem one_live_subscription_per_identity
    (hashQueryKey : QueryKey → string) (sigs : list Signal) (h : string) :
  let s := run hashQueryKey sigs init in
  opens h (trace s)
  = closes h (trace s)
    + match firestoreUnsubscribes s !! h with Some _ => 1 | None => 0 end ∧
  opens h (trace s) ≤ closes h (trace s) + 1 ∧
  (firestoreUnsubscribes s !! h = None → eventCount s !! h = None).
Proof.
  intros s.
  destruct (run_balanced hashQueryKey sigs init h (balanced_init h)) as [Hcnt Hb].
  fold s in Hcnt, Hb. split_and!; [done| |done].
  rewrite Hb. destruct (firestoreUnsubscribes s !! h); lia.
Qed.

(** In every run from the empty tables, once an event has been counted for
    an identity the slot that the installed listener closed over is settled
    (the first event resolved it); the [resolvePromise] call of a late
    attach therefore leaves the state of that slot as it was. *)
Theorem replay_leaves_slot_unchanged
    (hashQueryKey : QueryKey → string) (sigs : list Signal)
    (h : string) (l : Listener) (q : Query) :
  let s := run hashQueryKey sigs init in
  queryCacheUnsubscribes s !! h = Some l →
  is_Some (eventCount s !! h) →
  slotState (l_resolvePromise l) (trace s) ≠ Pending ∧
  slotState (l_resolvePromise l)
    (trace (step hashQueryKey
              (Notify h (Some {| query := q; type := observerAdded |})) s))
  = slotState (l_resolvePromise l) (trace s).
Proof.
  intros s Hl Hsome.
  destruct (run_wired hashQueryKey sigs init h (balanced_init h) (wired_init h))
    as [_ Hset].
  fold s in Hset. specialize (Hset l Hsome Hl). split; [done|].
  destruct (step_extends hashQueryKey
              (Notify h (Some {| query := q; type := observerAdded |})) s)
    as [tr' ->].
  rewrite slotState_app. unfold settled in Hset.
  by destruct (slotState (l_resolvePromise l) (trace s)).
Qed.

Lemma replay_leaves_slot_unchanged_witness :
  let s := run joinKey
             [RunEffect None ["Q1"] ["S1"] 7 quietSource;
              Notify "S1" (Some (mkEvent "Q1" observerAdded 1));
              Deliver "S1" (JsString "a");
              Deliver "S1" (JsString "b")] init in
  slotState (l_resolvePromise q1Listener) (trace s) ≠ Pending ∧
  slotState (l_resolvePromise q1Listener)
    (trace (step joinKey
              (Notify "S1" (Some {| query := {| queryHash := "Q1";
                                                getObserversCount := 2 |};
                                    type := observerAdded |})) s))
  = slotState (l_resolvePromise q1Listener) (trace s).
Proof.
  apply (replay_leaves_slot_unchanged joinKey
           [RunEffect None ["Q1"] ["S1"] 7 quietSource;
            Notify "S1" (Some (mkEvent "Q1" observerAdded 1));
            Deliver "S1" (JsString "a");
            Deliver "S1" (JsString "b")] "S1" q1Listener
           {| queryHash := "Q1"; getObserversCount := 2 |}).
  - vm_compute; reflexivity.
  - vm_compute. by eexists.
Defined.

(** The values pushed on a live subscription that has counted [n >= 1]
    events are all written to the store, in order, and counted. *)
Lemma later_deliveries_write_cache
    (hashQueryKey : QueryKey → string) (h : string) (l : Listener) (u : Unsubscribe)
    (payloads : list JsValue) (s : State) :
  queryCacheUnsubscribes s !! h = Some l →
  firestoreUnsubscribes s !! h = Some u →
  (1 ≤ eventCountOf h s)%Z →
  (eventCountOf h s + Z.of_nat (length payloads) ≤ MAX_EXACT)%Z →
  let s' := run hashQueryKey (Deliver h <$> payloads) s in
  eventCountOf h s' = (eventCountOf h s + Z.of_nat (length payloads))%Z ∧
  trace s' = trace s ++ (SetQueryData (l_queryKey l) <$> payloads).
Proof.
  revert s. induction payloads as [|d ds IH]; intros s Hl Hu Hpos Hmax.
  { simpl. split; [lia|by rewrite app_nil_r]. }
  rewrite fmap_cons, run_cons. cbn [step]. rewrite Hu, Hl.
  simpl length in Hmax.
  assert (eventCountOf h (subscriptionCallback h l d s) = (eventCountOf h s + 1)%Z)
    as Hcnt.
  { unfold eventCountOf at 1. rewrite subscriptionCallback_eventCount.
    rewrite lookup_insert_eq. simpl. apply js_incr_exact. lia. }
  destruct (IH (subscriptionCallback h l d s)) as [Hcnt' Htr'].
  - by rewrite subscriptionCallback_listeners.
  - by rewrite subscriptionCallback_firestore.
  - lia.
  - lia.
  - split.
    + rewrite Hcnt', Hcnt. simpl length. lia.
    + rewrite Htr', subscriptionCallback_later by done. simpl.
      by rewrite <- app_assoc.
Qed.

(** For every sequence of values pushed on a freshly opened subscription
    (fewer than 2^53 of them), the counter ends at the length of the
    sequence, the first value is passed to [resolvePromise] as
    [data || null], and every later value is written to the store. *)
Theorem deliveries_resolve_once_then_write
    (hashQueryKey : QueryKey → string) (h : string) (l : Listener) (u : Unsubscribe)
    (payloads : list JsValue) (s : State) :
  queryCacheUnsubscribes s !! h = Some l →
  firestoreUnsubscribes s !! h = Some u →
  eventCount s !! h = None →
  (Z.of_nat (length payloads) < MAX_EXACT)%Z →
  let s' := run hashQueryKey (Deliver h <$> payloads) s in
  eventCountOf h s' = Z.of_nat (length payloads) ∧
  trace s'
  = trace s ++ match payloads with
               | [] => []
               | first :: later =>
                   ResolvePromise (l_resolvePromise l) (js_or first JsNull)
                   :: (SetQueryData (l_queryKey l) <$> later)
               end.
Proof.
  intros Hl Hu He Hmax. assert (eventCountOf h s = 0%Z) as Hzero.
  { unfold eventCountOf. by rewrite He. }
  destruct payloads as [|d ds].
  { simpl. split; [done|by rewrite app_nil_r]. }
  rewrite fmap_cons, run_cons. cbn [step]. rewrite Hu, Hl.
  simpl length in Hmax.
  assert (eventCountOf h (subscriptionCallback h l d s) = 1%Z) as Hcnt.
  { unfold eventCountOf at 1. rewrite subscriptionCallback_eventCount.
    rewrite lookup_insert_eq, Hzero. done. }
  destruct (later_deliveries_write_cache hashQueryKey h l u ds
              (subscriptionCallback h l d s)) as [Hcnt' Htr'].
  - by rewrite subscriptionCallback_listeners.
  - by rewrite subscriptionCallback_firestore.
  - lia.
  - lia.
  - split.
    + rewrite Hcnt', Hcnt. simpl length. lia.
    + rewrite Htr', subscriptionCallback_first by done. simpl.
      by rewrite <- app_assoc.
Qed.

Lemma deliveries_resolve_once_then_write_witness :
  let s' := run joinKey (Deliver "S1" <$> [JsString "a"; JsString "b"; JsNull]) attached in
  eventCountOf "S1" s' = Z.of_nat (length [JsString "a"; JsString "b"; JsNull]) ∧
  trace s'
  = trace attached
    ++ ResolvePromise (l_resolvePromise q1Listener) (js_or (JsString "a") JsNull)
       :: (SetQueryData (l_queryKey q1Listener) <$> [JsString "b"; JsNull]).
Proof.
  apply (deliveries_resolve_once_then_write joinKey "S1" q1Listener 0
           [JsString "a"; JsString "b"; JsNull] attached);
    vm_compute; reflexivity.
Defined.

(** The scenario of the specification: attach, two values, detach to zero. *)
Example scenario_Q1 :
  let s1 := attached in
  let s2 := step joinKey (Deliver "S1" (JsString "a")) s1 in
  let s3 := step joinKey (Deliver "S1" (JsString "b")) s2 in
  let s4 := step joinKey (Notify "S1" (Some (mkEvent "Q1" observerRemoved 0))) s3 in
  opens "S1" (trace s1) = 1 ∧
  slotState 7 (trace s2) = ResolvedWith (JsString "a") ∧
  getQueryData ["Q1"] s3 = JsString "b" ∧
  slotState 7 (trace s3) = ResolvedWith (JsString "a") ∧
  closes "S1" (trace s4) = 1 ∧
  firestoreUnsubscribes s4 !! "S1" = None ∧
  is_Some (queryCacheUnsubscribes s4 !! "S1").
Proof. vm_compute. split_and!; try done. by eexists. Qed.

(** ** Identities do not interfere *)

Section Isolation.

Variable hashQueryKey : QueryKey → string.

Lemma subscriptionEffect_view o qk sk slot sf s h :
  hashFn hashQueryKey o sk ≠ h →
  view h (subscriptionEffect hashQueryKey o qk sk slot sf s) = view h s.
Proof.
  intros Hne. unfold view.
  rewrite subscriptionEffect_firestore, subscriptionEffect_eventCount.
  unfold opens, closes. rewrite !subscriptionEffect_count by done.
  unfold subscriptionEffect.
  destruct (opt_onlyOnce o || negb (opt_enabled o)); [done|].
  destruct (queryCacheUnsubscribes s !! hashFn hashQueryKey o sk); [done|].
  cbn [queryCacheUnsubscribes set_queryCacheUnsubscribes emit trace].
  rewrite lookup_insert_ne by done. unfold listens. rewrite count_app. simpl.
  rewrite bool_decide_eq_false_2 by done. by rewrite Nat.add_0_r.
Qed.

Lemma cacheListener_view h h' l event s :
  h' ≠ h → view h (cacheListener h' l event s) = view h s.
Proof.
  intros Hne. unfold view.
  rewrite cacheListener_firestore_ne, cacheListener_listeners_ne by done.
  rewrite cacheListener_eventCount_ne by done.
  unfold opens, closes, listens.
  rewrite !cacheListener_count; [done| | |];
    repeat split; try done; intros u; simpl; by rewrite bool_decide_eq_false_2.
Qed.

Lemma subscriptionCallback_view h h' l data s :
  h' ≠ h → view h (subscriptionCallback h' l data s) = view h s.
Proof.
  intros Hne. unfold view.
  rewrite subscriptionCallback_firestore, subscriptionCallback_listeners.
  rewrite subscriptionCallback_eventCount, lookup_insert_ne by done.
  unfold opens, closes, listens. by rewrite !subscriptionCallback_count.
Qed.

Lemma step_view sg s h :
  addressee hashQueryKey sg ≠ h → view h (step hashQueryKey sg s) = view h s.
Proof.
  destruct sg as [o qk sk slot sf|h' event|h' data|h' err]; simpl; intros Hne.
  - by apply subscriptionEffect_view.
  - destruct (queryCacheUnsubscribes s !! h'); [|done]. by apply cacheListener_view.
  - destruct (firestoreUnsubscribes s !! h'); [|done].
    destruct (queryCacheUnsubscribes s !! h'); [|done].
    by apply subscriptionCallback_view.
  - done.
Qed.

Lemma run_listener_kept sigs s h l :
  queryCacheUnsubscribes s !! h = Some l →
  Forall (λ sg, evicts h l sg = false) sigs →
  queryCacheUnsubscribes (run hashQueryKey sigs s) !! h = Some l.
Proof.
  revert s. induction sigs as [|sg sigs IH]; intros s Hl Hall; [done|].
  inversion Hall as [|? ? Hsg Hrest]; subst. rewrite run_cons.
  apply IH; [|done]. by apply step_listener_kept.
Qed.

End Isolation.

(** Whatever is addressed to other subscription hashes (effects that hash
    to them, cache events handed to their listeners, values and failures of
    their sources) leaves the handle, the listener, the counter and the
    calls of this hash exactly as they were. *)
Theorem other_identities_do_not_interfere
    (hashQueryKey : QueryKey → string) (sigs : list Signal) (h : string) (s : State) :
  Forall (λ sg, addressee hashQueryKey sg ≠ h) sigs →
  view h (run hashQueryKey sigs s) = view h s.
Proof.
  revert s. induction sigs as [|sg sigs IH]; intros s Hall; [done|].
  inversion Hall as [|? ? Hsg Hrest]; subst. rewrite run_cons.
  rewrite IH by done. by apply step_view.
Qed.

Lemma other_identities_do_not_interfere_witness :
  view "S1" (run joinKey trafficOnS2 (run joinKey twoRequests init))
  = view "S1" (run joinKey twoRequests init).
Proof.
  apply (other_identities_do_not_interfere joinKey trafficOnS2 "S1"
           (run joinKey twoRequests init)).
  repeat constructor; vm_compute; discriminate.
Defined.

(** The listener installed first for a subscription hash stays, with the
    key, the slot and the [subscribeFn] of the render that installed it,
    through every run that holds no removal of its own request: later runs of
    the effect for the same hash install nothing, whatever key, slot or
    [subscribeFn] they carry, and a removal of any other request is ignored.
    So values pushed later still go to the first render's slot and key. *)
Theorem first_listener_stays_until_its_request_is_removed
    (hashQueryKey : QueryKey → string) (sigs : list Signal)
    (h : string) (l : Listener) (s : State) :
  queryCacheUnsubscribes s !! h = Some l →
  Forall (λ sg, evicts h l sg = false) sigs →
  queryCacheUnsubscribes (run hashQueryKey sigs s) !! h = Some l ∧
  listens h (trace (run hashQueryKey sigs s)) = listens h (trace s) ∧
  (∀ o queryKey subscriptionKey slot subscribeFn,
     hashFn hashQueryKey o subscriptionKey = h →
     step hashQueryKey (RunEffect o queryKey subscriptionKey slot subscribeFn)
       (run hashQueryKey sigs s)
     = run hashQueryKey sigs s).
Proof.
  intros Hl Hall.
  pose proof (run_listener_kept hashQueryKey sigs s h l Hl Hall) as Hkept.
  split_and!; [done| |].
  - clear Hkept. revert s Hl. induction sigs as [|sg sigs IH]; intros s Hl; [done|].
    inversion Hall as [|? ? Hsg Hrest]; subst. rewrite run_cons.
    rewrite IH by (done || by apply step_listener_kept).
    destruct sg as [o qk sk slot sf|h' event|h' data|h' err]; simpl; [| | |done].
    + unfold subscriptionEffect.
      destruct (opt_onlyOnce o || negb (opt_enabled o)); [done|].
      destruct (queryCacheUnsubscribes s !! hashFn hashQueryKey o sk) eqn:Hq; [done|].
      simpl. unfold listens. rewrite count_app. simpl.
      rewrite bool_decide_eq_false_2; [lia|]. congruence.
    + destruct (queryCacheUnsubscribes s !! h'); [|done].
      unfold listens. apply cacheListener_count. by repeat split.
    + destruct (firestoreUnsubscribes s !! h'); [|done].
      destruct (queryCacheUnsubscribes s !! h'); [|done].
      unfold listens. by apply subscriptionCallback_count.
  - intros o qk sk slot sf Hh. simpl. unfold subscriptionEffect.
    destruct (opt_onlyOnce o || negb (opt_enabled o)); [done|].
    by rewrite Hh, Hkept.
Qed.

Lemma first_listener_stays_until_its_request_is_removed_witness :
  queryCacheUnsubscribes (run joinKey rerenders streaming) !! "S1" = Some q1Listener ∧
  listens "S1" (trace (run joinKey rerenders streaming))
  = listens "S1" (trace streaming) ∧
  (∀ o queryKey subscriptionKey slot subscribeFn,
     hashFn joinKey o subscriptionKey = "S1" →
     step joinKey (RunEffect o queryKey subscriptionKey slot subscribeFn)
       (run joinKey rerenders streaming)
     = run joinKey rerenders streaming).
Proof.
  apply (first_listener_stays_until_its_request_is_removed joinKey rerenders
           "S1" q1Listener streaming).
  - vm_compute; reflexivity.
  - repeat constructor.
Defined.

(** After the removal of its request the hash is free again: the next run
    of the subscription effect that is enabled and not one-shot installs a
    listener of its own, carrying that render's key, hash function, slot and
    [subscribeFn], and finds neither handle nor counter left over. *)
Theorem removal_frees_the_hash_for_a_new_listener
    (hashQueryKey : QueryKey → string) (h : string) (l : Listener) (q : Query)
    (s : State) (o : option UseSubscriptionOptions)
    (queryKey subscriptionKey : QueryKey) (slot : nat) (subscribeFn : SubscribeFn) :
  queryCacheUnsubscribes s !! h = Some l →
  queryHash q = l_hashFn l (l_queryKey l) →
  opt_onlyOnce o = false →
  opt_enabled o = true →
  hashFn hashQueryKey o subscriptionKey = h →
  let s' := run hashQueryKey
              [Notify h (Some {| query := q; type := queryRemoved |});
               RunEffect o queryKey subscriptionKey slot subscribeFn] s in
  queryCacheUnsubscribes s' !! h
  = Some {| l_queryKey := queryKey;
            l_hashFn := hashFn hashQueryKey o;
            l_clientHashFn := hashQueryKey;
            l_resolvePromise := slot;
            l_subscribeFn := subscribeFn |} ∧
  firestoreUnsubscribes s' !! h = None ∧
  eventCount s' !! h = None ∧
  listens h (trace s') = listens h (trace s) + 1.
Proof.
  intros Hl Hq Honce Hen Hh s'. subst s'. unfold run. simpl. rewrite Hl.
  rewrite cacheListener_queryRemoved by (by apply concerns_mk).
  set (s1 := firestoreUnsubscribe h (queryCacheUnsubscribe h s)).
  assert (queryCacheUnsubscribes s1 !! h = None) as Hl1.
  { unfold s1. rewrite firestoreUnsubscribe_listeners, queryCacheUnsubscribe_listeners.
    apply lookup_delete_eq. }
  assert (listens h (trace s1) = listens h (trace s)) as Hn1.
  { unfold s1, listens.
    rewrite firestoreUnsubscribe_trace, queryCacheUnsubscribe_trace, !count_app.
    rewrite queryCacheUnsubscribe_firestore.
    destruct (firestoreUnsubscribes s !! h), (queryCacheUnsubscribes s !! h);
      simpl; lia. }
  assert (firestoreUnsubscribes s1 !! h = None) as Hf1.
  { unfold s1. rewrite firestoreUnsubscribe_firestore. apply lookup_delete_eq. }
  assert (eventCount s1 !! h = None) as He1.
  { unfold s1. rewrite firestoreUnsubscribe_eventCount. apply lookup_delete_eq. }
  clearbody s1.
  unfold subscriptionEffect. rewrite Honce, Hen, Hh, Hl1. simpl.
  rewrite lookup_insert_eq. split_and!; try done.
  unfold listens in *. rewrite count_app, Hn1. simpl.
  rewrite bool_decide_eq_true_2 by done. lia.
Qed.

Lemma removal_frees_the_hash_for_a_new_listener_witness :
  let s' := run joinKey
              [Notify "S1" (Some {| query := {| queryHash := "Q1";
                                                getObserversCount := 1 |};
                                    type := queryRemoved |});
               RunEffect None ["Q9"] ["S1"] 8 eagerSource] streaming in
  queryCacheUnsubscribes s' !! "S1"
  = Some {| l_queryKey := ["Q9"];
            l_hashFn := hashFn joinKey None;
            l_clientHashFn := joinKey;
            l_resolvePromise := 8;
            l_subscribeFn := eagerSource |} ∧
  firestoreUnsubscribes s' !! "S1" = None ∧
  eventCount s' !! "S1" = None ∧
  listens "S1" (trace s') = listens "S1" (trace streaming) + 1.
Proof.
  apply (removal_frees_the_hash_for_a_new_listener joinKey "S1" q1Listener
           {| queryHash := "Q1"; getObserversCount := 1 |} streaming None
           ["Q9"] ["S1"] 8 eagerSource); vm_compute; reflexivity.
Defined.

(** A subscription that was closed and opened again starts counting anew,
    so the first value it pushes is handed to [resolvePromise] once more.
    The slot was settled by the first value of the earlier subscription and
    ignores the call, and the value is not written to the store: it reaches
    neither. *)
Theorem first_value_after_reopen_reaches_neither_slot_nor_store
    (hashQueryKey : QueryKey → string) (h : string) (l : Listener)
    (u : Unsubscribe) (data : JsValue) (s : State) :
  queryCacheUnsubscribes s !! h = Some l →
  firestoreUnsubscribes s !! h = Some u →
  eventCount s !! h = None →
  slotState (l_resolvePromise l) (trace s) ≠ Pending →
  let s' := step hashQueryKey (Deliver h data) s in
  trace s' = trace s ++ [ResolvePromise (l_resolvePromise l) (js_or data JsNull)] ∧
  slotState (l_resolvePromise l) (trace s') = slotState (l_resolvePromise l) (trace s) ∧
  queryData s' = queryData s ∧
  eventCount s' !! h = Some 1%Z.
Proof.
  intros Hl Hu He Hset s'. subst s'. simpl. rewrite Hu, Hl.
  rewrite subscriptionCallback_first by (unfold eventCountOf; by rewrite He).
  simpl. rewrite lookup_insert_eq, slotState_app.
  split_and!; try done.
  by destruct (slotState (l_resolvePromise l) (trace s)).
Qed.

Lemma first_value_after_reopen_reaches_neither_slot_nor_store_witness :
  let s' := step joinKey (Deliver "S1" (JsString "c")) reopened in
  trace s'
  = trace reopened
    ++ [ResolvePromise (l_resolvePromise q1Listener) (js_or (JsString "c") JsNull)] ∧
  slotState (l_resolvePromise q1Listener) (trace s')
  = slotState (l_resolvePromise q1Listener) (trace reopened) ∧
  queryData s' = queryData reopened ∧
  eventCount s' !! "S1" = Some 1%Z.
Proof.
  apply (first_value_after_reopen_reaches_neither_slot_nor_store joinKey "S1"
           q1Listener 1 (JsString "c") reopened).
  - vm_compute; reflexivity.
  - vm_compute; reflexivity.
  - vm_compute; reflexivity.
  - vm_compute; discriminate.
Defined.

(** ** Counters stay exact and positive *)

Lemma js_incr_range n :
  (0 ≤ n ≤ MAX_EXACT)%Z → (1 ≤ js_incr n ≤ MAX_EXACT)%Z.
Proof.
  intros [Hlo Hhi]. unfold js_incr.
  assert (1 ≤ MAX_EXACT)%Z as Hmax by (vm_compute; discriminate).
  destruct (Z.ltb_spec n MAX_EXACT); lia.
Qed.

Lemma eventCountOf_range h s :
  counters_in_range s → (0 ≤ eventCountOf h s ≤ MAX_EXACT)%Z.
Proof.
  intros Hr. unfold eventCountOf.
  destruct (eventCount s !! h) as [n|] eqn:Hn; simpl.
  - specialize (Hr h n Hn). lia.
  - split; [lia|]. vm_compute. discriminate.
Qed.

Lemma subscriptionCallback_range h l data s :
  counters_in_range s → counters_in_range (subscriptionCallback h l data s).
Proof.
  intros Hr h0 n. rewrite subscriptionCallback_eventCount.
  destruct (decide (h = h0)) as [->|Hne].
  - rewrite lookup_insert_eq. intros [= <-].
    by apply js_incr_range, eventCountOf_range.
  - rewrite lookup_insert_ne by done. apply Hr.
Qed.

Lemma pushAll_range h l pushes s :
  counters_in_range s → counters_in_range (pushAll h l pushes s).
Proof.
  revert s. induction pushes as [|d ds IH]; intros s Hr; simpl; [done|].
  by apply IH, subscriptionCallback_range.
Qed.

Lemma firestoreUnsubscribe_range h s :
  counters_in_range s → counters_in_range (firestoreUnsubscribe h s).
Proof.
  intros Hr h0 n. rewrite firestoreUnsubscribe_eventCount.
  intros Hn. apply lookup_delete_Some in Hn as [_ Hn]. by apply (Hr h0).
Qed.

Lemma cacheListener_range h l event s :
  counters_in_range s → counters_in_range (cacheListener h l event s).
Proof.
  intros Hr. destruct event as [ev|]; [|done].
  unfold cacheListener. destruct (concerns l ev); cbn [negb]; [|done].
  destruct (type ev); try done.
  - apply firestoreUnsubscribe_range. intros h0 n.
    rewrite queryCacheUnsubscribe_eventCount. apply Hr.
  - destruct (isSubscribedToFirestore h s).
    + by destruct (hasData h s).
    + intros h0 n. cbn [eventCount set_firestoreUnsubscribes].
      apply pushAll_range. intros h1 n1. simpl. apply Hr.
  - destruct (getObserversCount (query ev) =? 0)%Z; cbn [negb]; [|done].
    by apply firestoreUnsubscribe_range.
Qed.

Section Range.

Variable hashQueryKey : QueryKey → string.

Lemma step_range sg s :
  counters_in_range s → counters_in_range (step hashQueryKey sg s).
Proof.
  intros Hr. destruct sg as [o qk sk slot sf|h event|h data|h err]; simpl.
  - intros h0 n. rewrite subscriptionEffect_eventCount. apply Hr.
  - destruct (queryCacheUnsubscribes s !! h); [|done]. by apply cacheListener_range.
  - destruct (firestoreUnsubscribes s !! h); [|done].
    destruct (queryCacheUnsubscribes s !! h); [|done].
    by apply subscriptionCallback_range.
  - done.
Qed.

Lemma run_range sigs s :
  counters_in_range s → counters_in_range (run hashQueryKey sigs s).
Proof.
  revert s. induction sigs as [|sg sigs IH]; intros s Hr; [done|].
  rewrite run_cons. by apply IH, step_range.
Qed.

End Range.

(** In every run from the empty tables a stored counter lies between 1 and
    2^53: no counter is ever stored as 0, negative or beyond the exact
    integers.  So [hasData] holds exactly for the identities that have a
    counter entry, and the count reads 0 exactly for those that have none. *)
Theorem stored_counters_are_positive_and_exact
    (hashQueryKey : QueryKey → string) (sigs : list Signal) (h : string) :
  let s := run hashQueryKey sigs init in
  (∀ n, eventCount s !! h = Some n → (1 ≤ n ≤ MAX_EXACT)%Z) ∧
  (hasData h s = true ↔ is_Some (eventCount s !! h)) ∧
  (eventCountOf h s = 0%Z ↔ eventCount s !! h = None).
Proof.
  intros s.
  assert (counters_in_range s) as Hr.
  { apply run_range. intros h0 n Hn. simpl in Hn. by rewrite lookup_empty in Hn. }
  split_and!.
  - intros n. apply Hr.
  - unfold hasData. destruct (eventCount s !! h) as [n|] eqn:Hn.
    + specialize (Hr h n Hn). split; [by eexists|]. intros _.
      destruct (Z.eqb_spec n 0); [lia|done].
    + split; [done|]. by intros [? ?].
  - unfold eventCountOf. destruct (eventCount s !! h) as [n|] eqn:Hn; simpl.
    + specialize (Hr h n Hn). split; [lia|done].
    + done.
Qed.

(** In every run from the empty tables a stored handle belongs to a hash
    whose listener is installed, so a value pushed by a live subscription
    always reaches the callback of that listener. *)
Theorem live_subscription_has_its_listener
    (hashQueryKey : QueryKey → string) (sigs : list Signal)
    (h : string) (u : Unsubscribe) (data : JsValue) :
  let s := run hashQueryKey sigs init in
  firestoreUnsubscribes s !! h = Some u →
  ∃ l, queryCacheUnsubscribes s !! h = Some l ∧
       step hashQueryKey (Deliver h data) s = subscriptionCallback h l data s.
Proof.
  intros s Hu.
  destruct (run_wired hashQueryKey sigs init h (balanced_init h) (wired_init h))
    as [Hown _].
  fold s in Hown. destruct Hown as [l Hl]; [by eexists|].
  exists l. split; [done|]. simpl. by rewrite Hu, Hl.
Qed.

Lemma live_subscription_has_its_listener_witness :
  let s := run joinKey twoRequests init in
  ∃ l, queryCacheUnsubscribes s !! "S1" = Some l ∧
       step joinKey (Deliver "S1" (JsString "b")) s
       = subscriptionCallback "S1" l (JsString "b") s.
Proof.
  apply (live_subscription_has_its_listener joinKey twoRequests "S1" 0 (JsString "b")).
  vm_compute; reflexivity.
Defined.

(** ** Values pushed while [subscribeFn] runs *)

Lemma pushAll_later h l pushes s :
  (1 ≤ eventCountOf h s)%Z →
  (eventCountOf h s + Z.of_nat (length pushes) ≤ MAX_EXACT)%Z →
  eventCountOf h (pushAll h l pushes s)
  = (eventCountOf h s + Z.of_nat (length pushes))%Z ∧
  trace (pushAll h l pushes s) = trace s ++ (SetQueryData (l_queryKey l) <$> pushes).
Proof.
  revert s. induction pushes as [|d ds IH]; intros s Hpos Hmax.
  { simpl. split; [lia|by rewrite app_nil_r]. }
  change (pushAll h l (d :: ds) s) with (pushAll h l ds (subscriptionCallback h l d s)).
  simpl length in Hmax.
  assert (eventCountOf h (subscriptionCallback h l d s) = (eventCountOf h s + 1)%Z)
    as Hcnt.
  { unfold eventCountOf at 1. rewrite subscriptionCallback_eventCount.
    rewrite lookup_insert_eq. simpl. apply js_incr_exact. lia. }
  destruct (IH (subscriptionCallback h l d s)) as [Hcnt' Htr']; [lia|lia|].
  split.
  - rewrite Hcnt', Hcnt. simpl length. lia.
  - rewrite Htr', subscriptionCallback_later by done. simpl.
    by rewrite <- app_assoc.
Qed.

Lemma pushAll_fresh h l pushes s :
  eventCount s !! h = None →
  (Z.of_nat (length pushes) < MAX_EXACT)%Z →
  eventCountOf h (pushAll h l pushes s) = Z.of_nat (length pushes) ∧
  trace (pushAll h l pushes s)
  = trace s ++ match pushes with
               | [] => []
               | first :: later =>
                   ResolvePromise (l_resolvePromise l) (js_or first JsNull)
                   :: (SetQueryData (l_queryKey l) <$> later)
               end.
Proof.
  intros He Hmax. assert (eventCountOf h s = 0%Z) as Hzero.
  { unfold eventCountOf. by rewrite He. }
  destruct pushes as [|d ds].
  { simpl. split; [done|by rewrite app_nil_r]. }
  change (pushAll h l (d :: ds) s) with (pushAll h l ds (subscriptionCallback h l d s)).
  simpl length in Hmax.
  assert (eventCountOf h (subscriptionCallback h l d s) = 1%Z) as Hcnt.
  { unfold eventCountOf at 1. rewrite subscriptionCallback_eventCount.
    rewrite lookup_insert_eq, Hzero. done. }
  destruct (pushAll_later h l ds (subscriptionCallback h l d s)) as [Hcnt' Htr'];
    [lia|lia|].
  split.
  - rewrite Hcnt', Hcnt. simpl length. lia.
  - rewrite Htr', subscriptionCallback_first by done. simpl.
    by rewrite <- app_assoc.
Qed.

(** A source may push values while [subscribeFn] is still running, before
    the handle exists.  In a state reached from the empty tables the attach
    that opens the subscription handles them like later pushes: [subscribeFn]
    is called, the first value goes to [resolvePromise] as [data || null],
    the others are written to the store in order, all are counted, and only
    then is the handle stored. *)
Theorem values_pushed_during_subscribe_are_handled
    (hashQueryKey : QueryKey → string) (pre : list Signal)
    (h : string) (l : Listener) (q : Query) :
  let s := run hashQueryKey pre init in
  queryCacheUnsubscribes s !! h = Some l →
  firestoreUnsubscribes s !! h = None →
  queryHash q = l_hashFn l (l_queryKey l) →
  (Z.of_nat (length (pushedOnSubscribe (l_subscribeFn l))) < MAX_EXACT)%Z →
  let s' := step hashQueryKey
              (Notify h (Some {| query := q; type := observerAdded |})) s in
  firestoreUnsubscribes s' !! h = Some (nextUnsubscribe s) ∧
  eventCountOf h s' = Z.of_nat (length (pushedOnSubscribe (l_subscribeFn l))) ∧
  trace s'
  = trace s
    ++ CallSubscribeFn h (nextUnsubscribe s)
       :: match pushedOnSubscribe (l_subscribeFn l) with
          | [] => []
          | first :: later =>
              ResolvePromise (l_resolvePromise l) (js_or first JsNull)
              :: (SetQueryData (l_queryKey l) <$> later)
          end.
Proof.
  intros s Hl Hu Hq Hmax s'. subst s'. simpl. rewrite Hl.
  rewrite cacheListener_attach_open by (by apply concerns_mk || done).
  destruct (run_balanced hashQueryKey pre init h (balanced_init h)) as [Hcnt _].
  fold s in Hcnt. specialize (Hcnt Hu).
  set (s1 := emit (CallSubscribeFn h (nextUnsubscribe s)) (set_nextUnsubscribe S s)).
  destruct (pushAll_fresh h l (pushedOnSubscribe (l_subscribeFn l)) s1)
    as [Hn Htr]; [done|done|].
  unfold eventCountOf in *. cbn [firestoreUnsubscribes eventCount trace
                                 set_firestoreUnsubscribes].
  rewrite lookup_insert_eq, Hn, Htr. split_and!; try done.
  unfold s1. simpl. by rewrite <- app_assoc.
Qed.

Lemma values_pushed_during_subscribe_are_handled_witness :
  let s := run joinKey [RunEffect None ["Q2"] ["S2"] 9 eagerSource] init in
  let s' := step joinKey
              (Notify "S2" (Some {| query := {| queryHash := "Q2";
                                                getObserversCount := 1 |};
                                    type := observerAdded |})) s in
  firestoreUnsubscribes s' !! "S2" = Some (nextUnsubscribe s) ∧
  eventCountOf "S2" s'
  = Z.of_nat (length (pushedOnSubscribe (l_subscribeFn q2Listener))) ∧
  trace s'
  = trace s
    ++ CallSubscribeFn "S2" (nextUnsubscribe s)
       :: match pushedOnSubscribe (l_subscribeFn q2Listener) with
          | [] => []
          | first :: later =>
              ResolvePromise (l_resolvePromise q2Listener) (js_or first JsNull)
              :: (SetQueryData (l_queryKey q2Listener) <$> later)
          end.
Proof.
  apply (values_pushed_during_subscribe_are_handled joinKey
           [RunEffect None ["Q2"] ["S2"] 9 eagerSource] "S2" q2Listener
           {| queryHash := "Q2"; getObserversCount := 1 |});
    vm_compute; reflexivity.
Defined.

(** ** The one-shot path *)

(** A one-shot fetch that is not cancelled calls [fetchFn] once and settles
    the pending slot with exactly what the fetch produced: the value as it
    is (a falsy value too) or the error.  The three tables and the store are
    not touched. *)
Theorem one_shot_fetch_settles_the_slot
    (o : UseSubscriptionOptions) (slot f : nat) (s : State) (outcome : Settlement) :
  onlyOnce o = Some true →
  default true (enabled o) = true →
  fetchFn o = Some f →
  slotState slot (trace s) = Pending →
  ∃ r s1,
    onlyOnceEffect (Some o) slot s = (ReturnedCleanup r, s1) ∧
    let s2 := settle r outcome s1 in
    trace s2
    = trace s ++ [CallFetchFn f;
                  match outcome with
                  | Fulfilled data => ResolvePromise slot data
                  | Rejected err => RejectPromise slot err
                  end] ∧
    slotState slot (trace s2)
    = match outcome with
      | Fulfilled data => ResolvedWith data
      | Rejected err => RejectedWith err
      end ∧
    firestoreUnsubscribes s2 = firestoreUnsubscribes s ∧
    queryCacheUnsubscribes s2 = queryCacheUnsubscribes s ∧
    eventCount s2 = eventCount s ∧
    queryData s2 = queryData s.
Proof.
  intros Honce Hen Hfetch Hpend.
  unfold onlyOnceEffect, opt_onlyOnce, opt_enabled. simpl.
  rewrite Honce, Hen, Hfetch. simpl. do 2 eexists. split; [done|].
  destruct outcome; simpl; rewrite <- app_assoc, slotState_app, Hpend; simpl;
    by rewrite bool_decide_eq_true_2.
Qed.

Lemma one_shot_fetch_settles_the_slot_witness :
  ∃ r s1,
    onlyOnceEffect (Some onceWithFetch) 7 mounted = (ReturnedCleanup r, s1) ∧
    let s2 := settle r (Fulfilled (JsNumber 0)) s1 in
    trace s2
    = trace mounted ++ [CallFetchFn 3; ResolvePromise 7 (JsNumber 0)] ∧
    slotState 7 (trace s2) = ResolvedWith (JsNumber 0) ∧
    firestoreUnsubscribes s2 = firestoreUnsubscribes mounted ∧
    queryCacheUnsubscribes s2 = queryCacheUnsubscribes mounted ∧
    eventCount s2 = eventCount mounted ∧
    queryData s2 = queryData mounted.
Proof.
  apply (one_shot_fetch_settles_the_slot onceWithFetch 7 3 mounted
           (Fulfilled (JsNumber 0))); reflexivity.
Defined.

(** On any render at most one of the two effects acts: with [onlyOnce] the
    subscription effect returns at once, without it the one-shot effect
    does; with [enabled] false both return at once and nothing is fetched,
    installed or opened. *)
Theorem at_most_one_effect_acts
    (hashQueryKey : QueryKey → string) (o : option UseSubscriptionOptions)
    (queryKey subscriptionKey : QueryKey) (slot : nat)
    (subscribeFn : SubscribeFn) (s : State) :
  (onlyOnceEffect o slot s = (Returned, s) ∨
   subscriptionEffect hashQueryKey o queryKey subscriptionKey slot subscribeFn s = s) ∧
  (opt_enabled o = false →
   onlyOnceEffect o slot s = (Returned, s) ∧
   subscriptionEffect hashQueryKey o queryKey subscriptionKey slot subscribeFn s = s) ∧
  (onlyOnceEffect o slot s ≠ (Returned, s) →
   ∀ sigs, Forall (λ sg, ∃ qk sk k sf, sg = RunEffect o qk sk k sf) sigs →
           run hashQueryKey sigs s = s).
Proof.
  unfold onlyOnceEffect, subscriptionEffect.
  destruct (opt_onlyOnce o) eqn:Honce, (opt_enabled o) eqn:Hen; simpl;
    split_and!; try (by left); try (by right); try done.
  intros _ sigs Hall. induction sigs as [|sg sigs IH]; [done|].
  inversion Hall as [|? ? (qk & sk & k & sf & ->) Hrest]; subst.
  rewrite run_cons. simpl. unfold subscriptionEffect. rewrite Honce. simpl.
  by apply IH.
Qed.

(** ** Closing twice *)

(** Each teardown helper may be called again at no cost: the second call
    finds nothing, makes no call and returns the state of the first; so the
    stored handle and the listener's unsubscribe are each invoked at most
    once however often the teardown runs. *)
Theorem teardown_helpers_are_idempotent (h : string) (s : State) :
  firestoreUnsubscribe h (firestoreUnsubscribe h s) = firestoreUnsubscribe h s ∧
  queryCacheUnsubscribe h (queryCacheUnsubscribe h s) = queryCacheUnsubscribe h s ∧
  closes h (trace (firestoreUnsubscribe h (firestoreUnsubscribe h s)))
  = closes h (trace s)
    + match firestoreUnsubscribes s !! h with Some _ => 1 | None => 0 end ∧
  (firestoreUnsubscribes s !! h = None →
   trace (firestoreUnsubscribe h s) = trace s).
Proof.
  assert (firestoreUnsubscribe h (firestoreUnsubscribe h s) = firestoreUnsubscribe h s)
    as Hidem.
  { apply firestoreUnsubscribe_absent.
    - rewrite firestoreUnsubscribe_firestore. apply lookup_delete_eq.
    - rewrite firestoreUnsubscribe_eventCount. apply lookup_delete_eq. }
  split_and!.
  - done.
  - apply queryCacheUnsubscribe_absent.
    rewrite queryCacheUnsubscribe_listeners. apply lookup_delete_eq.
  - rewrite Hidem, firestoreUnsubscribe_trace. unfold closes. rewrite count_app.
    destruct (firestoreUnsubscribes s !! h); simpl; [|done].
    by rewrite bool_decide_eq_true_2.
  - intros Hu. by rewrite firestoreUnsubscribe_trace, Hu, app_nil_r.
Qed.

(** ** Deliveries in reachable states *)

(** In every run from the empty tables, a value pushed by a live
    subscription either is the first one counted, and is handed to
    [resolvePromise], or finds the slot of the listener already settled and
    is written to the store: the store is never written for a request whose
    slot is still pending. *)
Theorem store_is_written_only_after_the_slot_settled
    (hashQueryKey : QueryKey → string) (sigs : list Signal)
    (h : string) (l : Listener) (u : Unsubscribe) (data : JsValue) :
  let s := run hashQueryKey sigs init in
  queryCacheUnsubscribes s !! h = Some l →
  firestoreUnsubscribes s !! h = Some u →
  let s' := step hashQueryKey (Deliver h data) s in
  (eventCount s !! h = None ∧
   trace s' = trace s ++ [ResolvePromise (l_resolvePromise l) (js_or data JsNull)] ∧
   queryData s' = queryData s) ∨
  (is_Some (eventCount s !! h) ∧
   slotState (l_resolvePromise l) (trace s) ≠ Pending ∧
   trace s' = trace s ++ [SetQueryData (l_queryKey l) data] ∧
   queryData s'
   = fileData (l_clientHashFn l (l_queryKey l)) (l_clientHashFn l) data (queryData s)).
Proof.
  intros s Hl Hu s'. subst s'. simpl. rewrite Hu, Hl.
  destruct (eventCount s !! h) as [n|] eqn:Hn.
  - right.
    assert (counters_in_range s) as Hr.
    { apply run_range. intros h0 n0 Hn0. simpl in Hn0. by rewrite lookup_empty in Hn0. }
    destruct (run_wired hashQueryKey sigs init h (balanced_init h) (wired_init h))
      as [_ Hset].
    fold s in Hset. rewrite Hn in Hset.
    specialize (Hset l ltac:(by eexists) Hl).
    rewrite subscriptionCallback_later.
    + split_and!; [by eexists|done|done|done].
    + unfold eventCountOf. rewrite Hn. simpl. specialize (Hr h n Hn). lia.
  - left. rewrite subscriptionCallback_first; [done|].
    unfold eventCountOf. by rewrite Hn.
Qed.

Lemma store_is_written_only_after_the_slot_settled_witness :
  let s := run joinKey twoRequests init in
  let s' := step joinKey (Deliver "S1" (JsString "b")) s in
  (eventCount s !! "S1" = None ∧
   trace s'
   = trace s ++ [ResolvePromise (l_resolvePromise q1Listener)
                   (js_or (JsString "b") JsNull)] ∧
   queryData s' = queryData s) ∨
  (is_Some (eventCount s !! "S1") ∧
   slotState (l_resolvePromise q1Listener) (trace s) ≠ Pending ∧
   trace s' = trace s ++ [SetQueryData (l_queryKey q1Listener) (JsString "b")] ∧
   queryData s'
   = fileData (l_clientHashFn q1Listener (l_queryKey q1Listener))
       (l_clientHashFn q1Listener) (JsString "b") (queryData s)).
Proof.
  apply (store_is_written_only_after_the_slot_settled joinKey twoRequests "S1"
           q1Listener 0 (JsString "b")); vm_compute; reflexivity.
Defined.

(** ** Reading back what was written *)

(** When the queries that answer for the listener's key are exactly those
    filed under the client's default hash of that key (as they are when the
    hook is given no [queryKeyHashFn]), the value a later event writes is
    what [getQueryData] returns for the key afterwards, and so what a late
    attach passes to [resolvePromise]. *)
Theorem written_value_is_read_back_under_the_default_hash
    (h : string) (l : Listener) (data : JsValue) (s : State) :
  (1 ≤ eventCountOf h s)%Z →
  Forall (λ q, matchQuery (l_queryKey l) q = true
               ↔ cq_queryHash q = l_clientHashFn l (l_queryKey l)) (queryData s) →
  getQueryData (l_queryKey l) (subscriptionCallback h l data s) = data.
Proof.
  intros Hpos Hall. rewrite subscriptionCallback_later by done.
  unfold getQueryData. simpl.
  destruct (find_fileData_same (l_queryKey l) (l_clientHashFn l) data (queryData s) Hall)
    as (q & -> & Hq).
  done.
Qed.

Lemma written_value_is_read_back_under_the_default_hash_witness :
  getQueryData (l_queryKey q1Listener)
    (subscriptionCallback "S1" q1Listener (JsString "c") streaming) = JsString "c".
Proof.
  apply (written_value_is_read_back_under_the_default_hash "S1" q1Listener
           (JsString "c") streaming).
  - vm_compute. discriminate.
  - repeat constructor; vm_compute; reflexivity.
Defined.

(** When the first query that answers for the listener's key is filed under
    another hash than the client's default hash of that key (the consumer's
    query of a hook that is given [queryKeyHashFn]), a value written by a
    later event does not reach it: the value is filed under the default hash
    and [getQueryData] keeps returning, for the key, the data that query
    had. *)
Theorem value_filed_under_the_default_hash_is_not_read_back
    (h : string) (l : Listener) (data : JsValue) (s : State) (q : CachedQuery) :
  (1 ≤ eventCountOf h s)%Z →
  List.find (matchQuery (l_queryKey l)) (queryData s) = Some q →
  cq_queryHash q ≠ l_clientHashFn l (l_queryKey l) →
  let s' := subscriptionCallback h l data s in
  getQueryData (l_queryKey l) s' = cq_data q ∧
  getQueryData (l_queryKey l) s' = getQueryData (l_queryKey l) s ∧
  (∃ q', q' ∈ queryData s' ∧
         cq_queryHash q' = l_clientHashFn l (l_queryKey l) ∧ cq_data q' = data).
Proof.
  intros Hpos Hfind Hne s'. subst s'. rewrite subscriptionCallback_later by done.
  unfold getQueryData. simpl.
  rewrite (find_fileData_other _ _ _ _ _ q Hfind Hne), Hfind.
  split_and!; [done|done|]. apply fileData_holds.
Qed.

Lemma value_filed_under_the_default_hash_is_not_read_back_witness :
  let s' := subscriptionCallback "S1" customListener (JsString "b") customHashed in
  getQueryData (l_queryKey customListener) s' = cq_data consumerQuery ∧
  getQueryData (l_queryKey customListener) s'
  = getQueryData (l_queryKey customListener) customHashed ∧
  (∃ q', q' ∈ queryData s' ∧
         cq_queryHash q' = l_clientHashFn customListener (l_queryKey customListener) ∧
         cq_data q' = JsString "b").
Proof.
  apply (value_filed_under_the_default_hash_is_not_read_back "S1" customListener
           (JsString "b") customHashed consumerQuery).
  - vm_compute. discriminate.
  - vm_compute; reflexivity.
  - vm_compute. discriminate.
Defined.

(** The run with the hash function given to the hook: the listener the
    effect installs is [customListener], and after "b" the key still reads
    "a" while "b" sits in a query of its own. *)
Example customHashed_reads_the_consumers_query :
  queryCacheUnsubscribes customHashed !! "S1" = Some customListener ∧
  getQueryData ["users"; "Q1"]
    (step joinKey (Deliver "S1" (JsString "b")) customHashed) = JsString "a" ∧
  queryData (step joinKey (Deliver "S1" (JsString "b")) customHashed)
  = [consumerQuery;
     {| cq_queryHash := "users,Q1"; cq_queryKeyHashFn := joinKey;
        cq_data := JsString "b" |}].
Proof. vm_compute. split_and!; reflexivity. Qed.
